(** * glum: penalized generalized linear models

    A shallow embedding of the parts of [glum/_glm.py] that decide the
    hyperparameter validation, the solver set-up, the start coefficients,
    the regularization path, the penalty set-up, the sample-weight
    normalisation, the linear predictor, the covariance estimator and the
    Wald restrictions on named features.

    Numbers are rationals ([Q]) where the properties stated below do not
    depend on rounding (which branch is taken, which error is raised, the
    shape of a result, the expression an entry is computed by).  The
    log-spaced grid and the weight normalisation, whose outcome does
    depend on rounding, are modelled over binary64 numbers ([float]) with
    the IEEE operations, as they run for a design matrix of dtype
    float64. *)

From Stdlib Require Import List Bool Arith ZArith QArith Qabs Qcanon Lia Lqa.
From Stdlib Require Import String Ascii.
From Stdlib Require Import Floats.
Import ListNotations.

Set Implicit Arguments.

(** ** Exceptions *)

Inductive error : Type :=
| ValueError
| TypeError
| IndexError
| ZeroDivisionError
| LinAlgError
| AttributeError
| NotImplementedError.

Inductive result (A : Type) : Type :=
| Ok (a : A)
| Raise (e : error).

Arguments Ok {A} a.
Arguments Raise {A} e.

Definition bind {A B : Type} (r : result A) (k : A -> result B) : result B :=
  match r with
  | Ok a => k a
  | Raise e => Raise e
  end.

Notation "x <- r ;; k" := (bind r (fun x => k))
  (at level 61, r at next level, right associativity).

(** ** Numeric helpers on rationals *)

Definition Qlt_bool (a b : Q) : bool := negb (Qle_bool b a).

Definition Qmax2 (a b : Q) : Q := if Qle_bool a b then b else a.

Definition Qsum (v : list Q) : Q := fold_right Qplus 0%Q v.

(** [np.all(v == 0)] *)
Definition np_all_zero (v : list Q) : bool :=
  forallb (fun p => Qeq_bool p 0) v.

(** [np.max]: raises on an empty array. *)
Definition np_max (v : list Q) : result Q :=
  match v with
  | [] => Raise ValueError
  | x :: xs => Ok (fold_left Qmax2 xs x)
  end.

(** Boolean-mask indexing [a[mask]]: the mask must be as long as the array. *)
Fixpoint mask_filter {A : Type} (a : list A) (mask : list bool) : list A :=
  match a, mask with
  | x :: a', b :: mask' =>
      if b then x :: mask_filter a' mask' else mask_filter a' mask'
  | _, _ => []
  end.

Definition mask_select {A : Type} (a : list A) (mask : list bool)
  : result (list A) :=
  if Nat.eqb (List.length a) (List.length mask) then Ok (mask_filter a mask)
  else Raise IndexError.

(** ** Families and links

    The distribution and link classes live in [_distribution.py] and
    [_link.py]; this file only tests which class an instance has and calls
    the methods collected in [Distributions] below. *)

Inductive family : Type :=
| NormalDistribution
| PoissonDistribution
| GammaDistribution
| BinomialDistribution
| InverseGaussianDistribution
| TweedieDistribution (power : Q)
| NegativeBinomialDistribution (theta : Q)
| GeneralizedHyperbolicSecant.

Inductive link : Type :=
| IdentityLink
| LogLink
| LogitLink
| CloglogLink
| TweedieLink (power : Q).

Definition is_NormalDistribution (f : family) : bool :=
  match f with NormalDistribution => true | _ => false end.

Definition is_IdentityLink (l : link) : bool :=
  match l with IdentityLink => true | _ => false end.

(** A two-dimensional array: its shape and its entries by index. *)
Record matrix : Type := {
  dim0 : nat;
  dim1 : nat;
  at_ : nat -> nat -> Q
}.

(** A design matrix of [tabmat] (an instance of [tm.MatrixBase] or
    [tm.StandardizedMatrix]): the array, and whether it is a
    [tm.SparseMatrix], which stores its entries sparse. *)
Record tabmat : Type := {
  mat : matrix;
  is_SparseMatrix : bool
}.

(** [scipy.sparse.issparse(X)] asks whether [X] is an instance of scipy's
    sparse classes.  The matrices of tabmat wrap their arrays and do not
    derive from these classes, so for every design that passes the
    [isinstance] guard at the head of [setup_p1] and [setup_p2] the
    answer is no, also for a [tm.SparseMatrix]. *)
Definition issparse (X : tabmat) : bool := false.

Definition shape0 (X : tabmat) : nat := dim0 (mat X).
Definition shape1 (X : tabmat) : nat := dim1 (mat X).

(** The methods of the family and link objects that the code below calls. *)
Class Distributions : Type := {
  in_y_range : family -> Q -> bool;
  to_tweedie : family -> option Q;
  guess_intercept : list Q -> list Q -> link -> family -> Q;
  mu_deviance_derivative :
    family -> link -> list Q -> tabmat -> list Q -> list Q ->
    option (list Q) -> list Q * list Q;
  custom_tweedie : string -> option Q;
  custom_negative_binomial : string -> option Q
}.

(** ** The estimator's parameters and fitted state *)

Inductive family_spec : Type :=
| FamilyInstance (f : family)
| FamilyName (s : string).

Inductive link_spec : Type :=
| LinkInstance (l : link)
| LinkName (s : string)
| LinkNone.

(** The constructor arguments that the modelled methods read.  [alpha] is
    an attribute of the subclass only: [None] when the object has no such
    attribute, [Some None] when it is set to Python's [None]. *)
Record params : Type := {
  l1_ratio : list Q;
  fit_intercept : bool;
  family_ : family_spec;
  link_ : link_spec;
  solver : string;
  max_iter : nat;
  gradient_tol : option Q;
  step_size_tol : option Q;
  alpha_search : bool;
  n_alphas : nat;
  check_input : bool;
  lower_bounds : option (list Q);
  upper_bounds : option (list Q);
  A_ineq : option (list (list Q));
  b_ineq : option (list Q);
  alpha : option (option Q)
}.

(** Attributes written by [_set_up_for_fit] and by the solvers. *)
Record fit_state : Type := {
  _family_instance : option family;
  _link_instance : option link;
  _center_predictors : option bool;
  _num_obs : option nat;
  _solver : option string;
  _gradient_tol : option Q;
  coef_ : option (list Q);
  intercept_ : option Q
}.

Definition name_to_dist : list (string * family) :=
  [ ("binomial"%string, BinomialDistribution);
    ("gamma"%string, GammaDistribution);
    ("gaussian"%string, NormalDistribution);
    ("inverse.gaussian"%string, InverseGaussianDistribution);
    ("normal"%string, NormalDistribution);
    ("poisson"%string, PoissonDistribution);
    ("tweedie"%string, TweedieDistribution (3 # 2));
    ("negative.binomial"%string, NegativeBinomialDistribution 1) ].

Fixpoint lookup {A : Type} (k : string) (d : list (string * A)) : option A :=
  match d with
  | [] => None
  | (k', v) :: d' => if String.eqb k k' then Some v else lookup k d'
  end.

Definition get_family `{Distributions} (f : family_spec) : result family :=
  match f with
  | FamilyInstance d => Ok d
  | FamilyName s =>
      match lookup s name_to_dist with
      | Some d => Ok d
      | None =>
          match custom_tweedie s with
          | Some p => Ok (TweedieDistribution p)
          | None =>
              match custom_negative_binomial s with
              | Some t => Ok (NegativeBinomialDistribution t)
              | None => Raise ValueError
              end
          end
      end
  end.

Definition link_mapping : list (string * link) :=
  [ ("cloglog"%string, CloglogLink);
    ("identity"%string, IdentityLink);
    ("log"%string, LogLink);
    ("logit"%string, LogitLink);
    ("tweedie"%string, TweedieLink (3 # 2)) ].

Definition auto_link `{Distributions} (f : family) : result link :=
  match to_tweedie f with
  | Some power => if Qle_bool power 0 then Ok IdentityLink else Ok LogLink
  | None =>
      match f with
      | GeneralizedHyperbolicSecant => Ok IdentityLink
      | BinomialDistribution => Ok LogitLink
      | NegativeBinomialDistribution _ => Ok LogLink
      | _ => Raise ValueError
      end
  end.

Definition get_link `{Distributions} (l : link_spec) (f : family)
  : result link :=
  match l with
  | LinkInstance i => Ok i
  | LinkNone => auto_link f
  | LinkName s =>
      if String.eqb s "auto" then auto_link f
      else
        match lookup s link_mapping with
        | Some i => Ok i
        | None =>
            match custom_tweedie s with
            | Some p => Ok (TweedieLink p)
            | None => Raise ValueError
            end
        end
  end.

(** [sub in s] on strings. *)
Definition str_in (sub s : string) : bool :=
  match String.index 0 sub s with
  | Some _ => true
  | None => false
  end.

Definition is_some {A : Type} (o : option A) : bool :=
  match o with Some _ => true | None => false end.

Definition is_none {A : Type} (o : option A) : bool := negb (is_some o).

(** [hasattr(self, "alpha") and self.alpha == 0] *)
Definition alpha_is_zero (p : params) : bool :=
  match alpha p with
  | Some (Some a) => Qeq_bool a 0
  | _ => false
  end.

(** The solver chosen by [_set_up_for_fit]. *)
Definition select_solver (p : params) : string :=
  if String.eqb (solver p) "auto" then
    if is_some (A_ineq p) && is_some (b_ineq p) then "trust-constr"%string
    else if is_none (lower_bounds p) && is_none (upper_bounds p) then
      if np_all_zero (l1_ratio p) then "irls-ls"%string
      else if alpha_is_zero p && negb (alpha_search p) then "irls-ls"%string
      else "irls-cd"%string
    else "irls-cd"%string
  else solver p.

Definition select_gradient_tol (p : params) (chosen : string) : Q :=
  match gradient_tol p with
  | None =>
      if String.eqb chosen "trust-constr" then 1 # 100000000 else 1 # 10000
  | Some t => t
  end.

(** [_set_up_for_fit]: the attributes are assigned in order, so an
    exception leaves the assignments made before it in place.  The function
    returns the state at exit together with the outcome. *)
Definition _set_up_for_fit `{Distributions}
  (p : params) (st : fit_state) (y : list Q) : fit_state * result unit :=
  match get_family (family_ p) with
  | Raise e => (st, Raise e)
  | Ok fam =>
      let st1 := {| _family_instance := Some fam;
                    _link_instance := _link_instance st;
                    _center_predictors := _center_predictors st;
                    _num_obs := _num_obs st;
                    _solver := _solver st;
                    _gradient_tol := _gradient_tol st;
                    coef_ := coef_ st;
                    intercept_ := intercept_ st |} in
      match get_link (link_ p) fam with
      | Raise e => (st1, Raise e)
      | Ok lnk =>
          let chosen := select_solver p in
          let st2 := {| _family_instance := Some fam;
                        _link_instance := Some lnk;
                        _center_predictors := Some (fit_intercept p);
                        _num_obs := Some (List.length y);
                        _solver := Some chosen;
                        _gradient_tol := Some (select_gradient_tol p chosen);
                        coef_ := coef_ st;
                        intercept_ := intercept_ st |} in
          if check_input p && negb (forallb (in_y_range fam) y)
          then (st2, Raise ValueError)
          else (st2, Ok tt)
      end
  end.

(** ** [_solve]: the settings handed to the solvers *)

Inductive inner_solver : Type :=
| _least_squares_solver
| _cd_solver.

(** The fields of [IRLSData] that [_solve] computes from the estimator. *)
Record IRLSData : Type := {
  irls_X : tabmat;
  irls_y : list Q;
  irls_sample_weight : list Q;
  irls_P1 : list Q;
  irls_fit_intercept : bool;
  irls_family : family;
  irls_link : link;
  irls_max_iter : nat;
  irls_gradient_tol : Q;
  irls_step_size_tol : option Q;
  irls_fixed_inner_tol : option (Q * option Q);
  irls_offset : option (list Q);
  irls_lower_bounds : option (list Q);
  irls_upper_bounds : option (list Q)
}.

(** The solvers of [_solvers.py]: each returns the coefficients and the
    iteration count. *)
Class Solvers : Type := {
  _irls_solver : inner_solver -> list Q -> IRLSData -> list Q * nat;
  _lbfgs_solver :
    list Q -> tabmat -> list Q -> list Q -> family -> link ->
    nat -> Q -> option (list Q) -> list Q * nat;
  _trust_constr_solver :
    list Q -> tabmat -> list Q -> list Q -> bool -> family -> link ->
    nat -> Q -> option (list Q) ->
    option (list (list Q)) -> option (list Q) -> list Q * nat
}.

(** The first statement of [_solve]: the pair
    [(fixed_inner_tol, max_iter)]. *)
Definition solve_limits (p : params) (fam : family) (lnk : link)
  (chosen : string) (gtol : Q) : option (Q * option Q) * nat :=
  if is_NormalDistribution fam && is_IdentityLink lnk
     && str_in "irls" chosen
  then (Some (gtol, step_size_tol p), 1%nat)
  else (None, max_iter p).

Definition make_irls_data (p : params) (fam : family) (lnk : link)
  (chosen : string) (gtol : Q)
  (X : tabmat) (y sample_weight P1 : list Q)
  (offset lower upper : option (list Q)) : IRLSData :=
  let '(fixed_inner_tol, mi) := solve_limits p fam lnk chosen gtol in
  {| irls_X := X;
     irls_y := y;
     irls_sample_weight := sample_weight;
     irls_P1 := P1;
     irls_fit_intercept := fit_intercept p;
     irls_family := fam;
     irls_link := lnk;
     irls_max_iter := mi;
     irls_gradient_tol := gtol;
     irls_step_size_tol := step_size_tol p;
     irls_fixed_inner_tol := fixed_inner_tol;
     irls_offset := offset;
     irls_lower_bounds := lower;
     irls_upper_bounds := upper |}.

(** [_solve], for an estimator on which [_set_up_for_fit] has run: returns
    the coefficients and, when a solver ran, its iteration count. *)
Definition _solve `{Solvers} (p : params) (fam : family) (lnk : link)
  (chosen : string) (gtol : Q)
  (X : tabmat) (y sample_weight P1 coef : list Q)
  (offset lower upper : option (list Q))
  (A : option (list (list Q))) (b : option (list Q))
  : list Q * option nat :=
  let '(fixed_inner_tol, mi) := solve_limits p fam lnk chosen gtol in
  if str_in "irls" chosen then
    let irls_data :=
      make_irls_data p fam lnk chosen gtol X y sample_weight P1
                     offset lower upper in
    if String.eqb chosen "irls-ls" then
      let '(c, n) := _irls_solver _least_squares_solver coef irls_data in
      (c, Some n)
    else if String.eqb chosen "irls-cd" then
      let '(c, n) := _irls_solver _cd_solver coef irls_data in
      (c, Some n)
    else (coef, None)
  else if String.eqb chosen "lbfgs" then
    let '(c, n) :=
      _lbfgs_solver coef X y sample_weight fam lnk mi gtol offset in
    (c, Some n)
  else if String.eqb chosen "trust-constr" then
    let '(c, n) :=
      _trust_constr_solver coef X y sample_weight (fit_intercept p)
                           fam lnk mi gtol offset A b in
    (c, Some n)
  else (coef, None).

(** ** The outer IRLS loop

    [_irls_solver] is defined in [_solvers.py]; what follows is its outer
    loop as the specification describes it. *)

(** Modelled from the spec: the steps of the outer loop of [_irls_solver]
    ([_solvers.py] is missing).  Iterate dispatches to the inner solver,
    which sees the settings (the fixed inner tolerance among them) and
    the current coefficients and produces the update that is accepted;
    the check compares the gradient norm at the new coefficients and the
    size of the step with their tolerances. *)
Class IRLSSteps : Type := {
  irls_iterate : inner_solver -> IRLSData -> list Q -> list Q;
  gradient_norm : IRLSData -> list Q -> Q;
  step_size : list Q -> list Q -> Q
}.

(** Modelled from the spec: the Check state of the outer loop of
    [_irls_solver] ([_solvers.py] is missing): stop if the gradient norm
    is at most [gradient_tol], or the step size is at most
    [step_size_tol], or the iteration count has reached [max_iter]. *)
Definition irls_check `{IRLSSteps} (d : IRLSData) (n_iter : nat)
  (previous coef : list Q) : bool :=
  Qle_bool (gradient_norm d coef) (irls_gradient_tol d)
  || match irls_step_size_tol d with
     | Some tol => Qle_bool (step_size previous coef) tol
     | None => false
     end
  || Nat.eqb n_iter (irls_max_iter d).

(** Modelled from the spec: the outer loop of [_irls_solver]
    ([_solvers.py] is missing), the state machine Init, Iterate, Check,
    terminal.  [fuel] bounds the number of passes; the check stops the
    loop after [max_iter] passes at the latest, so that [max_iter] passes
    are enough fuel. *)
Fixpoint irls_loop `{IRLSSteps} (fuel : nat) (inner : inner_solver)
  (d : IRLSData) (n_iter : nat) (coef : list Q) : list Q * nat :=
  match fuel with
  | O => (coef, n_iter)
  | S fuel' =>
      let coef' := irls_iterate inner d coef in
      let n_iter' := S n_iter in
      if irls_check d n_iter' coef coef' then (coef', n_iter')
      else irls_loop fuel' inner d n_iter' coef'
  end.

(** Modelled from the spec: [_irls_solver] ([_solvers.py] is missing)
    runs the outer loop from the start coefficients and returns the final
    coefficients and the number of iterations. *)
Definition spec_irls_solver `{IRLSSteps} (inner : inner_solver)
  (coef : list Q) (d : IRLSData) : list Q * nat :=
  irls_loop (irls_max_iter d) inner d 0 coef.

(** Modelled from the spec: the solvers of [_solvers.py], with the outer
    IRLS loop above; the two other solvers are left open. *)
Definition spec_solvers `{IRLSSteps}
  (lbfgs : list Q -> tabmat -> list Q -> list Q -> family -> link ->
           nat -> Q -> option (list Q) -> list Q * nat)
  (trust_constr : list Q -> tabmat -> list Q -> list Q -> bool -> family ->
                  link -> nat -> Q -> option (list Q) ->
                  option (list (list Q)) -> option (list Q) -> list Q * nat)
  : Solvers :=
  {| _irls_solver := spec_irls_solver;
     _lbfgs_solver := lbfgs;
     _trust_constr_solver := trust_constr |}.

(** The inner solver that [_solve] names for each IRLS solver. *)
Definition irls_inner (chosen : string) : inner_solver :=
  if String.eqb chosen "irls-ls" then _least_squares_solver else _cd_solver.

(** ** [_get_alpha_path]: the maximum penalty *)

Open Scope Q_scope.

(** The start vector at which the gradient is taken. *)
Definition alpha_path_coef `{Distributions} (p : params) (fam : family)
  (lnk : link) (X : tabmat) (y w : list Q) : nat * list Q :=
  if fit_intercept p
  then (1%nat, guess_intercept y w lnk fam :: repeat 0 (shape1 X))
  else (0%nat, repeat 0 (shape1 X)).

Definition alpha_path_gradient `{Distributions} (p : params) (fam : family)
  (lnk : link) (X : tabmat) (y w : list Q) (offset : option (list Q))
  : list Q :=
  snd (mu_deviance_derivative fam lnk (snd (alpha_path_coef p fam lnk X y w))
                              X y w offset).

(** [np.abs(-0.5 * d / p)], elementwise; the two selections have the same
    length or numpy refuses to broadcast them. *)
Fixpoint penalty_ratios (d p1 : list Q) : list Q :=
  match d, p1 with
  | di :: d', pi :: p1' => Qabs (- (1 # 2) * di / pi) :: penalty_ratios d' p1'
  | _, _ => []
  end.

Definition get_alpha_max `{Distributions} (p : params) (fam : family)
  (lnk : link) (P1_no_alpha : list Q) (X : tabmat) (y w : list Q)
  (offset : option (list Q)) : result Q :=
  if np_all_zero P1_no_alpha then Ok 10
  else
    let intercept_offset := fst (alpha_path_coef p fam lnk X y w) in
    let dev_der := alpha_path_gradient p fam lnk X y w offset in
    let l1_regularized_mask := map (fun v => Qlt_bool 0 v) P1_no_alpha in
    d <- mask_select (skipn intercept_offset dev_der) l1_regularized_mask ;;
    q <- mask_select P1_no_alpha l1_regularized_mask ;;
    np_max (penalty_ratios d q).

Close Scope Q_scope.

(** ** Binary64 arithmetic and numpy

    [+], [-], [*], [/] and the comparisons on [float] are the IEEE
    operations of binary64 that numpy applies to float64 scalars and
    arrays.  [np.log], [np.power] and [np.sum] belong to numpy and are
    the fields of [Numpy]. *)

Class Numpy : Type := {
  np_log : float -> float;
  np_power : float -> float -> float;
  np_sum : list float -> float
}.

Open Scope float_scope.

(** The float64 value of a small non-negative integer. *)
Definition float_of_nat (n : nat) : float :=
  PrimFloat.of_uint63 (Uint63.of_Z (Z.of_nat n)).

(** [np.e], that is 2.718281828459045 *)
Definition np_e : float := 0x1.5bf0a8b145769p+1.

(** ** [_make_grid]: the log-spaced grid

    [np.linspace(start, stop, num)] sets [delta = stop - start] and
    [step = delta / (num - 1)], computes point [i] as [i * step + start]
    (as [i / (num - 1) * delta + start] when [step == 0], and as
    [i * delta + start] when [num - 1] is zero) and, for more than one
    point, overwrites the last one with [stop]. *)

Definition linspace_point (start stop : float) (num i : nat) : float :=
  if Nat.ltb 1 num && Nat.eqb i (num - 1) then stop
  else
    let div := (num - 1)%nat in
    let delta := stop - start in
    if Nat.ltb 0 div then
      let step := delta / float_of_nat div in
      if PrimFloat.eqb step 0
      then float_of_nat i / float_of_nat div * delta + start
      else float_of_nat i * step + start
    else float_of_nat i * delta + start.

Definition np_linspace (start stop : float) (num : nat) : list float :=
  map (linspace_point start stop num) (seq 0 num).

(** [np.logspace(start, stop, num, base=np.e, dtype=X.dtype)] for a
    float64 design: [np.power(base, y)] on the points [y] of
    [np.linspace]. *)
Definition np_logspace `{Numpy} (start stop : float) (num : nat)
  : list float :=
  map (np_power np_e) (np_linspace start stop num).

(** [_make_grid(max_alpha)]; the literal [1e-6] is the binary64 number
    nearest to it. *)
Definition _make_grid `{Numpy} (min_alpha min_alpha_ratio : option float)
  (num : nat) (max_alpha : float) : result (list float) :=
  match min_alpha with
  | None =>
      let mn :=
        match min_alpha_ratio with
        | None => max_alpha * 0x1.0c6f7a0b5ed8dp-20
        | Some r => max_alpha * r
        end in
      Ok (np_logspace (np_log max_alpha) (np_log mn) num)
  | Some m =>
      if PrimFloat.leb max_alpha m then Raise ValueError
      else Ok (np_logspace (np_log max_alpha) (np_log m) num)
  end.

Close Scope float_scope.

(** ** Penalty set-up: [setup_p1] and [setup_p2] *)

Open Scope Q_scope.

Inductive sparse_format : Type := CSC | CSR.

(** The penalty arguments as the functions receive them.  An array
    argument of [setup_p1] is taken through [np.atleast_1d] and then cast
    with [astype(dtype, casting="safe")]: [P1Array1] and [P1Array2] are
    the arrays of one and of more dimensions for which the cast succeeds,
    [P1Uncastable] an array of any shape for which it raises (strings,
    say, or float64 weights for a float32 design).  An array argument of
    [setup_p2] has passed [check_array], which lets one- and
    two-dimensional arrays and sparse matrices through. *)
Inductive p1_spec : Type :=
| P1Str (s : string)
| P1None
| P1Array1 (v : list Q)
| P1Array2 (m : matrix)
| P1Uncastable.

Inductive p2_spec : Type :=
| P2Str (s : string)
| P2None
| P2Array1 (v : list Q)
| P2Array2 (m : matrix)
| P2SparseArray (fmt : sparse_format) (m : matrix).

Inductive p2_value : Type :=
| P2Dense1 (v : list Q)
| P2Dense2 (m : matrix)
| P2Sparse (fmt : sparse_format) (m : matrix).

Definition np_ones (n : nat) : list Q := repeat 1 n.

Definition setup_p1 (P1 : p1_spec) (X : tabmat) (alpha l1_ratio : Q)
  : result (list Q) :=
  let n_features := shape1 X in
  v <- match P1 with
       | P1Str s =>
           if negb (String.eqb s "identity") then Raise ValueError
           else Ok (np_ones n_features)
       | P1None => Ok (np_ones n_features)
       | P1Array1 v =>
           if negb (Nat.eqb (List.length v) n_features) then Raise ValueError
           else Ok v
       | P1Array2 _ => Raise ValueError
       | P1Uncastable => Raise TypeError
       end ;;
  Ok (map (fun x => alpha * l1_ratio * x) v).

(** [dia_matrix((v, 0), shape=(n, n))] *)
Definition diag_matrix (n : nat) (v : list Q) : matrix :=
  {| dim0 := n; dim1 := n;
     at_ := fun i j => if Nat.eqb i j then nth i v 0 else 0 |}.

Definition _setup_sparse_p2 (n_features : nat) (v : list Q) : p2_value :=
  P2Sparse CSC (diag_matrix n_features v).

Definition transpose (m : matrix) : matrix :=
  {| dim0 := dim1 m; dim1 := dim0 m; at_ := fun i j => at_ m j i |}.

Definition mscale (c : Q) (m : matrix) : matrix :=
  {| dim0 := dim0 m; dim1 := dim1 m; at_ := fun i j => c * at_ m i j |}.

Definition madd (a b : matrix) : matrix :=
  {| dim0 := dim0 a; dim1 := dim1 a;
     at_ := fun i j => at_ a i j + at_ b i j |}.

Definition p2_uniform (X : tabmat) : p2_value :=
  if issparse X then _setup_sparse_p2 (shape1 X) (np_ones (shape1 X))
  else P2Dense1 (np_ones (shape1 X)).

Definition p2_square (n_features : nat) (m : matrix) : bool :=
  Nat.eqb (dim0 m) (dim1 m) && Nat.eqb (dim0 m) n_features.

(** The branches of [setup_p2] before the scaling. *)
Definition p2_prepare (P2 : p2_spec) (X : tabmat) : result p2_value :=
  let n_features := shape1 X in
  match P2 with
  | P2Str s =>
      if negb (String.eqb s "identity") then Raise ValueError
      else Ok (p2_uniform X)
  | P2None => Ok (p2_uniform X)
  | P2Array1 v =>
      if negb (Nat.eqb (List.length v) n_features) then Raise ValueError
      else if issparse X then Ok (_setup_sparse_p2 n_features v)
      else Ok (P2Dense1 v)
  | P2Array2 m =>
      if p2_square n_features m then
        if issparse X then Ok (P2Sparse CSC m) else Ok (P2Dense2 m)
      else Raise ValueError
  | P2SparseArray fmt m =>
      if p2_square n_features m then
        if issparse X then Ok (P2Sparse CSC m) else Ok (P2Sparse fmt m)
      else Raise ValueError
  end.

Definition p2_scale (c : Q) (v : p2_value) : p2_value :=
  match v with
  | P2Dense1 w => P2Dense1 (map (fun x => c * x) w)
  | P2Dense2 m => P2Dense2 (mscale c m)
  | P2Sparse fmt m => P2Sparse fmt (mscale c m)
  end.

(** [0.5 * (P2 + P2.T)] for a two-dimensional result. *)
Definition p2_symmetrize (v : p2_value) : p2_value :=
  match v with
  | P2Dense1 w => P2Dense1 w
  | P2Dense2 m => P2Dense2 (mscale (1 # 2) (madd m (transpose m)))
  | P2Sparse fmt m => P2Sparse fmt (mscale (1 # 2) (madd m (transpose m)))
  end.

Definition setup_p2 (P2 : p2_spec) (X : tabmat) (alpha l1_ratio : Q)
  : result p2_value :=
  v <- p2_prepare P2 X ;;
  Ok (p2_symmetrize (p2_scale (alpha * (1 - l1_ratio)) v)).

Close Scope Q_scope.

(** ** Matrix products *)

Open Scope Q_scope.

Definition sum_range (n : nat) (f : nat -> Q) : Q := Qsum (map f (seq 0 n)).

Definition matmul (a b : matrix) : matrix :=
  {| dim0 := dim0 a; dim1 := dim1 b;
     at_ := fun i j => sum_range (dim1 a) (fun k => at_ a i k * at_ b k j) |}.

(** [X.sandwich(d)], the product [X' diag(d) X]. *)
Definition sandwich (X : matrix) (d : list Q) : matrix :=
  {| dim0 := dim1 X; dim1 := dim1 X;
     at_ := fun i j =>
       sum_range (dim0 X) (fun k => at_ X k i * nth k d 0 * at_ X k j) |}.

(** ** [_group_sum] *)

(** [len(np.unique(groups))] *)
Definition n_unique (groups : list Z) : nat :=
  List.length (nodup Z.eq_dec groups).

(** A column index of a matrix with [n] columns; negative indices count
    from the end. *)
Definition column_index (n : nat) (g : Z) : result nat :=
  if (0 <=? g)%Z && (g <? Z.of_nat n)%Z then Ok (Z.to_nat g)
  else if (- Z.of_nat n <=? g)%Z && (g <? 0)%Z
       then Ok (Z.to_nat (g + Z.of_nat n))
       else Raise IndexError.

Fixpoint column_indices (n : nat) (groups : list Z) : result (list nat) :=
  match groups with
  | [] => Ok []
  | g :: gs =>
      i <- column_index n g ;;
      is_ <- column_indices n gs ;;
      Ok (i :: is_)
  end.

(** [sps.eye(ngroups)[:, groups]]: column [r] is the unit vector of the
    group of observation [r]. *)
Definition group_indicator (ngroups : nat) (cols : list nat) : matrix :=
  {| dim0 := ngroups; dim1 := List.length cols;
     at_ := fun g r =>
       if Nat.ltb r (List.length cols) && Nat.eqb (nth r cols 0%nat) g
       then 1 else 0 |}.

Definition _group_sum (groups : list Z) (data : matrix) : result matrix :=
  let ngroups := n_unique groups in
  cols <- column_indices ngroups groups ;;
  if Nat.ltb 0 (dim1 data)
     && negb (Nat.eqb (List.length groups) (dim0 data))
  then Raise ValueError
  else
    let eye_n := group_indicator ngroups cols in
    Ok {| dim0 := ngroups; dim1 := dim1 data;
          at_ := at_ (matmul eye_n data) |}.

(** ** [covariance_matrix] *)

(** What the estimator, the family and the linear-algebra libraries
    provide to the covariance computation. *)
Inductive cond_number : Type :=
| Finite (c : Q)
| Infinite.

Class Information : Type := {
  predict : tabmat -> option (list Q) -> list Q;
  dispersion : family -> list Q -> list Q -> list Q -> nat -> Q;
  _fisher_information :
    family -> link -> tabmat -> list Q -> list Q -> list Q -> Q -> bool ->
    matrix;
  _observed_information :
    family -> link -> tabmat -> list Q -> list Q -> list Q -> Q -> bool ->
    matrix;
  _score_matrix :
    family -> link -> tabmat -> list Q -> list Q -> list Q -> Q -> bool ->
    matrix;
  linalg_cond : matrix -> cond_number;
  linalg_solve : matrix -> matrix -> matrix;
  linalg_inv : matrix -> matrix
}.

(** [sys.float_info.epsilon] *)
Definition float_epsilon : Q := 1 # 4503599627370496.

Definition cond_gt (c : cond_number) (bound : Q) : bool :=
  match c with
  | Finite q => Qlt_bool bound q
  | Infinite => true
  end.

Definition int_of_bool (b : bool) : Q := if b then 1 else 0.

(** The correction of the clustered estimator; [n_groups] is a Python
    integer, so a single group divides by zero. *)
Definition clustered_correction (n_groups : nat) (sum_weights : Q)
  (n_features_in_ : nat) (fit_icpt : bool) : result Q :=
  if Nat.eqb n_groups 1 then Raise ZeroDivisionError
  else Ok ((inject_Z (Z.of_nat n_groups)
            / inject_Z (Z.of_nat n_groups - 1))
           * ((sum_weights - 1)
              / (sum_weights - inject_Z (Z.of_nat n_features_in_)
                 - int_of_bool fit_icpt))).

Definition robust_correction (sum_weights : Q) (n_features_in_ : nat)
  (fit_icpt : bool) : Q :=
  sum_weights
  / (sum_weights - inject_Z (Z.of_nat n_features_in_) - int_of_bool fit_icpt).

Definition default_to {A : Type} (o : option A) (d : A) : A :=
  match o with Some a => a | None => d end.

(** [covariance_matrix] from the point where the arguments have been
    checked.  Returns the stored matrix at exit and the outcome. *)
Definition covariance_matrix `{Information}
  (fit_icpt self_robust self_expected_information : bool)
  (n_features_in_ : nat) (fam : family) (lnk : link)
  (stored : option matrix)
  (X : tabmat) (y : list Q) (sample_weight : list Q)
  (offset mu : option (list Q)) (disp : option Q)
  (robust expected_information : option bool) (clusters : option (list Z))
  (store_covariance_matrix : bool) : option matrix * result matrix :=
  let _robust := default_to robust self_robust in
  let _expected_information :=
    default_to expected_information self_expected_information in
  let sum_weights := Qsum sample_weight in
  let mu := default_to mu (predict X offset) in
  let disp :=
    default_to disp
      (dispersion fam y mu sample_weight
                  (shape1 X + if fit_icpt then 1 else 0)%nat) in
  if cond_gt (linalg_cond (sandwich (mat X) (np_ones (shape0 X))))
             (1 / (float_epsilon * float_epsilon))
  then (stored, Raise LinAlgError)
  else
    let computed :=
      if _robust || is_some clusters then
        let oim :=
          (if _expected_information then _fisher_information
           else _observed_information)
            fam lnk X y mu sample_weight disp fit_icpt in
        let gradient :=
          _score_matrix fam lnk X y mu sample_weight disp fit_icpt in
        inner_correction <-
          match clusters with
          | Some c =>
              grouped_gradient <- _group_sum c gradient ;;
              correction <-
                clustered_correction (n_unique c) sum_weights
                                     n_features_in_ fit_icpt ;;
              Ok (matmul (transpose grouped_gradient) grouped_gradient,
                  correction)
          | None =>
              Ok (sandwich gradient (np_ones (List.length y)),
                  robust_correction sum_weights n_features_in_ fit_icpt)
          end ;;
        Ok (mscale (snd inner_correction)
              (linalg_solve oim
                 (transpose (linalg_solve oim (fst inner_correction)))))
      else
        let fisher :=
          _fisher_information fam lnk X y mu sample_weight disp fit_icpt in
        Ok (mscale (robust_correction sum_weights n_features_in_ fit_icpt)
                   (linalg_inv fisher))
    in
    match computed with
    | Ok vcov =>
        ((if store_covariance_matrix then Some vcov else stored), Ok vcov)
    | Raise e => (stored, Raise e)
    end.

Close Scope Q_scope.

(** ** [_set_up_and_check_fit_args]: the sample weights *)

(** [check_weights] and [check_offset] of [_validation.py]. *)
Class Validation : Type := {
  check_weights : option (list float) -> nat -> result (list float);
  check_offset : option (list float) -> nat -> result (option (list float))
}.

Record fit_args : Type := {
  fa_X : tabmat;
  fa_y : list float;
  fa_sample_weight : list float;
  fa_offset : option (list float);
  fa_weights_sum : float;
  fa_P1 : p1_spec;
  fa_P2 : p2_spec
}.

(** The path of [_set_up_and_check_fit_args] for a contiguous float64
    matrix: the target must be there, the weights and the offset are
    checked, and the weights are divided by their sum. *)
Definition _set_up_and_check_fit_args `{Numpy} `{Validation}
  (P1 : p1_spec) (P2 : p2_spec)
  (X : tabmat) (y : option (list float))
  (sample_weight offset : option (list float)) : result fit_args :=
  match y with
  | None => Raise ValueError
  | Some y =>
      sample_weight <- check_weights sample_weight (List.length y) ;;
      offset <- check_offset offset (List.length y) ;;
      let weights_sum := np_sum sample_weight in
      let sample_weight :=
        map (fun w => (w / weights_sum)%float) sample_weight in
      Ok {| fa_X := X; fa_y := y; fa_sample_weight := sample_weight;
            fa_offset := offset; fa_weights_sum := weights_sum;
            fa_P1 := P1; fa_P2 := P2 |}
  end.

(** ** Concrete instances used to evaluate the definitions *)

Definition sample_distributions : Distributions :=
  {| in_y_range := fun f v =>
       match f with
       | PoissonDistribution => Qle_bool 0 v
       | GammaDistribution => Qlt_bool 0 v
       | BinomialDistribution => Qle_bool 0 v && Qle_bool v 1
       | _ => true
       end;
     to_tweedie := fun f =>
       match f with
       | NormalDistribution => Some 0%Q
       | PoissonDistribution => Some 1%Q
       | GammaDistribution => Some 2%Q
       | InverseGaussianDistribution => Some 3%Q
       | TweedieDistribution p => Some p
       | _ => None
       end;
     guess_intercept := fun y w _ _ => (Qsum y / Qsum w)%Q;
     mu_deviance_derivative := fun _ _ coef _ y _ _ =>
       (y, map (fun c => (c - 3)%Q) coef);
     custom_tweedie := fun _ => None;
     custom_negative_binomial := fun _ => None |}.

Definition sample_params : params :=
  {| l1_ratio := [(1 # 2)%Q];
     fit_intercept := true;
     family_ := FamilyName "poisson";
     link_ := LinkName "auto";
     solver := "auto";
     max_iter := 100;
     gradient_tol := None;
     step_size_tol := None;
     alpha_search := false;
     n_alphas := 100;
     check_input := true;
     lower_bounds := None;
     upper_bounds := None;
     A_ineq := None;
     b_ineq := None;
     alpha := Some (Some 0%Q) |}.

Definition empty_state : fit_state :=
  {| _family_instance := None;
     _link_instance := None;
     _center_predictors := None;
     _num_obs := None;
     _solver := None;
     _gradient_tol := None;
     coef_ := None;
     intercept_ := None |}.

Definition sample_X : tabmat :=
  {| mat := {| dim0 := 2; dim1 := 2;
               at_ := fun i j => if Nat.eqb i j then 1%Q else 0%Q |};
     is_SparseMatrix := false |}.

(** ** The solver rule as the specification words it *)

(** The rule as the specification words it: constraints, then bounds or a
    nonzero L1 ratio, then least squares. *)
Definition claimed_solver (p : params) : string :=
  if is_some (A_ineq p) && is_some (b_ineq p) then "trust-constr"%string
  else if is_some (lower_bounds p) || is_some (upper_bounds p)
          || negb (np_all_zero (l1_ratio p))
       then "irls-cd"%string
       else "irls-ls"%string.

(** ** The maximum penalty as the specification words it *)

(** [|g_j| / (2 * P1_j)] *)
Definition kkt_ratio (g p1 : Q) : Q := (Qabs g / (2 * p1))%Q.

(** The vector at which the gradient is taken: all zero, or the guessed
    intercept followed by zeros. *)
Definition null_coef `{Distributions} (p : params) (fam : family)
  (lnk : link) (X : tabmat) (y w : list Q) : list Q :=
  if fit_intercept p
  then guess_intercept y w lnk fam :: repeat 0%Q (shape1 X)
  else repeat 0%Q (shape1 X).

(** The gradient entries of the features (the intercept's entry dropped). *)
Definition null_gradient `{Distributions} (p : params) (fam : family)
  (lnk : link) (X : tabmat) (y w : list Q) (offset : option (list Q))
  : list Q :=
  skipn (if fit_intercept p then 1 else 0)
        (snd (mu_deviance_derivative fam lnk (null_coef p fam lnk X y w)
                                     X y w offset)).

(** ** The clustered correction as the docstring words it *)

(** [(M / (M - 1)) * (N / (N - p))] *)
Definition documented_clustered_correction (n_groups : nat)
  (sum_weights : Q) (n_features_in_ : nat) (fit_icpt : bool) : Q :=
  ((inject_Z (Z.of_nat n_groups) / inject_Z (Z.of_nat n_groups - 1))
   * (sum_weights
      / (sum_weights - inject_Z (Z.of_nat n_features_in_)
         - int_of_bool fit_icpt)))%Q.

(** ** An instance on one feature, used to evaluate the estimator *)

Definition ones_matrix (r c : nat) : matrix :=
  {| dim0 := r; dim1 := c; at_ := fun _ _ => 1%Q |}.

Definition unit_matrix : matrix := ones_matrix 1 1.

(** Solving against a one-by-one matrix divides by its entry. *)
Definition solve_1x1 (h b : matrix) : matrix :=
  {| dim0 := dim0 b; dim1 := dim1 b;
     at_ := fun i j => (at_ b i j / at_ h 0 0)%Q |}.

Definition sample_information : Information :=
  {| predict := fun _ _ => [];
     dispersion := fun _ _ _ _ _ => 1%Q;
     _fisher_information := fun _ _ _ _ _ _ _ _ => unit_matrix;
     _observed_information := fun _ _ _ _ _ _ _ _ => unit_matrix;
     _score_matrix := fun _ _ _ y _ _ _ _ => ones_matrix (List.length y) 1;
     linalg_cond := fun m =>
       if Qeq_bool (at_ m 0%nat 0%nat) 0 then Infinite else Finite 1;
     linalg_solve := solve_1x1;
     linalg_inv := fun h => solve_1x1 h unit_matrix |}.

Definition ones_design (r : nat) : tabmat :=
  {| mat := ones_matrix r 1; is_SparseMatrix := false |}.

Definition zero_design (r : nat) : tabmat :=
  {| mat := {| dim0 := r; dim1 := 1; at_ := fun _ _ => 0%Q |};
     is_SparseMatrix := false |}.

(** Steps of the outer loop that add one to every coefficient and never
    meet a tolerance. *)
Definition sample_steps : IRLSSteps :=
  {| irls_iterate := fun _ _ coef => map (Qplus 1) coef;
     gradient_norm := fun _ _ => 1%Q;
     step_size := fun _ _ => 1%Q |}.

(** A design on two features that is a [tm.SparseMatrix]. *)
Definition sparse_design : tabmat :=
  {| mat := {| dim0 := 2; dim1 := 2;
               at_ := fun i j => if Nat.eqb i j then 1%Q else 0%Q |};
     is_SparseMatrix := true |}.

(** numpy on the arguments used in the evaluations below: [log] and
    [power] at the arguments where the C standard (Annex F) fixes the
    result, [log(0) = -inf], [log(1) = 0], [pow(x, 0) = 1],
    [pow(e, -inf) = 0] and [pow(e, nan) = nan]; every other argument is
    answered by [nan] and must not be relied on.  [np.sum] adds an array
    of fewer than eight numbers from left to right. *)
Definition sample_numpy : Numpy :=
  {| np_log := fun x =>
       if PrimFloat.eqb x 0 then neg_infinity
       else if PrimFloat.eqb x 1 then 0%float
       else nan;
     np_power := fun _ x =>
       if PrimFloat.eqb x 0 then 1%float
       else if PrimFloat.eqb x neg_infinity then 0%float
       else nan;
     np_sum := fun v => fold_left PrimFloat.add v 0%float |}.

Definition sample_validation : Validation :=
  {| check_weights := fun sw n =>
       match sw with
       | None => Ok (repeat 1%float n)
       | Some w =>
           if Nat.eqb (List.length w) n then Ok w else Raise ValueError
       end;
     check_offset := fun o _ => Ok o |}.

(** The penalized coordinates, each with its gradient entry. *)
Definition penalized_pairs (g P1 : list Q) : list (Q * Q) :=
  filter (fun gp => Qlt_bool 0 (snd gp)) (combine g P1).

(** ** [_find_alpha_index] *)

(** [np.isclose(a, b)] with its default tolerances:
    [|a - b| <= atol + rtol * |b|]. *)
Definition isclose (a b : Q) : bool :=
  Qle_bool (Qabs (a - b)) ((1 # 100000000) + (1 # 100000) * Qabs b)%Q.

Fixpoint count_true (l : list bool) : nat :=
  match l with
  | [] => 0
  | b :: l' => (if b then 1 else 0) + count_true l'
  end.

(** [np.argmax] of a boolean array: the first [True], or 0. *)
Fixpoint argmax_bool (l : list bool) : nat :=
  match l with
  | [] => 0
  | b :: l' => if b then 0 else
                 if Nat.eqb (count_true l') 0 then 0 else S (argmax_bool l')
  end.

Definition _find_alpha_index (alpha_search_ : bool) (_alphas : list Q)
  (alpha_ : option Q) : result (option nat) :=
  match alpha_ with
  | None => Ok None
  | Some a =>
      if negb alpha_search_ then Raise ValueError
      else
        let close := map (fun x => isclose x a) _alphas in
        if Nat.eqb (count_true close) 1 then Ok (Some (argmax_bool close))
        else Raise IndexError
  end.

(** ** [_get_start_coef] *)

(** Helpers of [_utils.py] and [_distribution.py] that the start
    coefficients need: the in-place standardization of a warm start and
    the intercept guess with its offset argument. *)
Class StartHelpers : Type := {
  standardize_warm_start : list Q -> list Q -> option (list Q) -> list Q;
  guess_intercept_offset :
    list Q -> list Q -> link -> family -> option (list Q) -> Q
}.

Record start_options : Type := {
  warm_start : bool;
  start_params : option (list Q)
}.

Definition Qmin2 (a b : Q) : Q := if Qle_bool a b then a else b.

(** Broadcasting two one-dimensional arrays against each other. *)
Definition broadcast_pairs (a b : list Q) : result (list (Q * Q)) :=
  if Nat.eqb (List.length a) (List.length b) then Ok (combine a b)
  else if Nat.eqb (List.length b) 1
       then Ok (combine a (repeat (hd 0%Q b) (List.length a)))
  else if Nat.eqb (List.length a) 1
       then Ok (combine (repeat (hd 0%Q a) (List.length b)) b)
  else Raise ValueError.

(** [if np.any(violates(tail, bound)): tail[:] = pick(tail, bound)]: the
    comparison broadcasts; the assignment needs a value as long as the
    slice. *)
Definition clip_to_bound (violates : Q -> Q -> bool) (pick : Q -> Q -> Q)
  (tail bound : list Q) : result (list Q) :=
  pairs <- broadcast_pairs tail bound ;;
  if existsb (fun cb => violates (fst cb) (snd cb)) pairs then
    let v := map (fun cb => pick (fst cb) (snd cb)) pairs in
    if Nat.eqb (List.length v) (List.length tail) then Ok v
    else Raise ValueError
  else Ok tail.

Definition clip_lower : list Q -> list Q -> result (list Q) :=
  clip_to_bound (fun c l => Qlt_bool c l) Qmax2.

Definition clip_upper : list Q -> list Q -> result (list Q) :=
  clip_to_bound (fun c u => Qlt_bool u c) Qmin2.

(** The start vector before the bounds are applied, and whether it is
    the very array stored in [coef_] (a warm start without intercept). *)
Definition initial_start_coef `{StartHelpers} (p : params)
  (o : start_options) (st : fit_state) (X : tabmat) (y sample_weight : list Q)
  (offset : option (list Q)) (col_means : list Q)
  (col_stds : option (list Q)) : result (list Q * bool) :=
  if warm_start o && is_some (coef_ st) then
    match coef_ st, intercept_ st, _center_predictors st with
    | Some c, Some i, Some center =>
        let c1 := if fit_intercept p then i :: c else c in
        let c2 := if center then standardize_warm_start c1 col_means col_stds
                  else c1 in
        Ok (c2, negb (fit_intercept p))
    | _, _, _ => Raise AttributeError
    end
  else
    match start_params o with
    | None =>
        if fit_intercept p then
          match _link_instance st, _family_instance st with
          | Some lnk, Some fam =>
              Ok (guess_intercept_offset y sample_weight lnk fam offset
                    :: repeat 0%Q (shape1 X), false)
          | _, _ => Raise AttributeError
          end
        else Ok (repeat 0%Q (shape1 X), false)
    | Some sp =>
        if negb (Nat.eqb (List.length sp)
                   (List.length col_means + if fit_intercept p then 1 else 0))
        then Raise ValueError
        else
          match _center_predictors st with
          | Some center =>
              Ok (if center then standardize_warm_start sp col_means col_stds
                  else sp, false)
          | None => Raise AttributeError
          end
    end.

Definition set_coef_ (st : fit_state) (c : list Q) : fit_state :=
  {| _family_instance := _family_instance st;
     _link_instance := _link_instance st;
     _center_predictors := _center_predictors st;
     _num_obs := _num_obs st;
     _solver := _solver st;
     _gradient_tol := _gradient_tol st;
     coef_ := Some c;
     intercept_ := intercept_ st |}.

(** [_get_start_coef]: the start vector with its feature part brought
    inside the bounds.  The state is returned because clipping a warm
    start without intercept writes into the stored [coef_]. *)
Definition _get_start_coef `{StartHelpers} (p : params) (o : start_options)
  (st : fit_state) (X : tabmat) (y sample_weight : list Q)
  (offset : option (list Q)) (col_means : list Q)
  (col_stds : option (list Q)) : fit_state * result (list Q) :=
  match initial_start_coef p o st X y sample_weight offset col_means col_stds
  with
  | Raise e => (st, Raise e)
  | Ok (coef, aliased) =>
      let idx := if fit_intercept p then 1%nat else 0%nat in
      let head := firstn idx coef in
      let keep (st0 : fit_state) (c : list Q) :=
        if aliased then set_coef_ st0 c else st0 in
      let lowered :=
        match lower_bounds p with
        | None => Ok (skipn idx coef)
        | Some lb => clip_lower (skipn idx coef) lb
        end in
      match lowered with
      | Raise e => (st, Raise e)
      | Ok t1 =>
          let st1 := keep st (head ++ t1) in
          let capped :=
            match upper_bounds p with
            | None => Ok t1
            | Some ub => clip_upper t1 ub
            end in
          match capped with
          | Raise e => (st1, Raise e)
          | Ok t2 => (keep st (head ++ t2), Ok (head ++ t2))
          end
      end
  end.

(** ** Instances used to evaluate the start coefficients *)

Definition sample_start_helpers : StartHelpers :=
  {| standardize_warm_start := fun c _ _ => c;
     guess_intercept_offset := fun y w _ _ _ => (Qsum y / Qsum w)%Q |}.

Definition bounded_params : params :=
  {| l1_ratio := [0%Q];
     fit_intercept := false;
     family_ := FamilyName "normal";
     link_ := LinkName "auto";
     solver := "auto";
     max_iter := 100;
     gradient_tol := None;
     step_size_tol := None;
     alpha_search := false;
     n_alphas := 100;
     check_input := true;
     lower_bounds := Some [0%Q; 0%Q];
     upper_bounds := Some [1%Q; 1%Q];
     A_ineq := None;
     b_ineq := None;
     alpha := None |}.

Definition warm_state : fit_state :=
  {| _family_instance := Some NormalDistribution;
     _link_instance := Some IdentityLink;
     _center_predictors := Some false;
     _num_obs := Some 2%nat;
     _solver := Some "irls-cd"%string;
     _gradient_tol := Some (1 # 10000)%Q;
     coef_ := Some [(-2)%Q; 3%Q];
     intercept_ := Some 0%Q |}.

(** ** [_validate_hyperparameters] *)

(** [P1] as the validation sees it: a string, or an array of weights. *)
Inductive p1_param : Type :=
| P1Name (s : string)
| P1Values (v : list Q).

(** The constructor arguments read by the validation beyond [params]. *)
Record hyperparams : Type := {
  hp : params;
  selection : string;
  scale_predictors : bool;
  hp_P1 : p1_param
}.

Definition in_strings (s : string) (l : list string) : bool :=
  existsb (String.eqb s) l.

Arguments in_strings : simpl never.

(** An optional tolerance that is set and not positive. *)
Definition not_positive (t : option Q) : bool :=
  match t with
  | Some v => Qle_bool v 0
  | None => false
  end.

(** The checks of [_validate_hyperparameters] in their order; the checks
    that an argument is a [bool] or an [int] are made by the types. *)
Definition _validate_hyperparameters (h : hyperparams) : result unit :=
  let p := hp h in
  let bounds := is_some (lower_bounds p) || is_some (upper_bounds p) in
  let ineq := is_some (A_ineq p) || is_some (b_ineq p) in
  if String.eqb (solver p) "newton-cg" then Raise ValueError
  else if negb (in_strings (solver p)
                  ["auto"; "irls-ls"; "lbfgs"; "irls-cd"; "trust-constr"]%string)
  then Raise ValueError
  else if Nat.leb (max_iter p) 0 then Raise ValueError
  else if not_positive (gradient_tol p) then Raise ValueError
  else if not_positive (step_size_tol p) then Raise ValueError
  else if negb (in_strings (selection h) ["cyclic"; "random"]%string)
  then Raise ValueError
  else if scale_predictors h && negb (fit_intercept p) then Raise ValueError
  else if bounds && negb (in_strings (solver p) ["auto"; "irls-cd"]%string)
  then Raise ValueError
  else if ineq && negb (in_strings (solver p) ["auto"; "trust-constr"]%string)
  then Raise ValueError
  else if ineq && bounds then Raise NotImplementedError
  else if (is_some (A_ineq p) && is_none (b_ineq p))
          || (is_none (A_ineq p) && is_some (b_ineq p))
  then Raise ValueError
  else if check_input p then
    match hp_P1 h with
    | P1Name _ => Ok tt
    | P1Values v =>
        if negb (forallb (Qle_bool 0) v) then Raise ValueError else Ok tt
    end
  else Ok tt.

Definition known_solvers : list string :=
  ["irls-ls"; "irls-cd"; "lbfgs"; "trust-constr"]%string.

(** ** Instances used to evaluate the solvers *)

Definition sample_solvers : Solvers :=
  {| _irls_solver := fun _ coef d => (coef, irls_max_iter d);
     _lbfgs_solver := fun coef _ _ _ _ _ mi _ _ => (coef, mi);
     _trust_constr_solver := fun coef _ _ _ _ _ _ mi _ _ _ _ => (coef, mi) |}.

Definition bounded_hyperparams : hyperparams :=
  {| hp := bounded_params;
     selection := "cyclic";
     scale_predictors := false;
     hp_P1 := P1Values [1%Q; 0%Q] |}.

(** ** [_solve_regularization_path] *)

(** [P2_no_alpha * alpha] *)
Definition p2_times (v : p2_value) (a : Q) : p2_value :=
  match v with
  | P2Dense1 w => P2Dense1 (map (fun x => (x * a)%Q) w)
  | P2Dense2 m =>
      P2Dense2 {| dim0 := dim0 m; dim1 := dim1 m;
                  at_ := fun i j => (at_ m i j * a)%Q |}
  | P2Sparse fmt m =>
      P2Sparse fmt {| dim0 := dim0 m; dim1 := dim1 m;
                      at_ := fun i j => (at_ m i j * a)%Q |}
  end.

(** [coef_path_[k, :] = coef]: the row has the length of the start
    vector; a vector of that length or of length one can be assigned. *)
Definition assign_row (n : nat) (c : list Q) : result (list Q) :=
  if Nat.eqb (List.length c) n then Ok c
  else if Nat.eqb (List.length c) 1 then Ok (repeat (hd 0%Q c) n)
  else Raise ValueError.

(** The loop over the penalties; [solve P1 P2 coef] stands for
    [self._solve] with the data and the constraints fixed. *)
Fixpoint solve_path (solve : list Q -> p2_value -> list Q -> list Q)
  (n : nat) (alphas : list Q) (P2_no_alpha : p2_value)
  (P1_no_alpha coef : list Q) : result (list (list Q)) :=
  match alphas with
  | [] => Ok []
  | a :: rest =>
      let P1 := map (fun x => (x * a)%Q) P1_no_alpha in
      let P2 := p2_times P2_no_alpha a in
      let coef' := solve P1 P2 coef in
      row <- assign_row n coef' ;;
      rows <- solve_path solve n rest P2_no_alpha P1_no_alpha coef' ;;
      Ok (row :: rows)
  end.

Definition _solve_regularization_path
  (solve : list Q -> p2_value -> list Q -> list Q)
  (alphas : list Q) (P2_no_alpha : p2_value) (P1_no_alpha coef : list Q)
  : result (list (list Q)) :=
  solve_path solve (List.length coef) alphas P2_no_alpha P1_no_alpha coef.

(** The vector the solver is started from at step [k] of the path. *)
Definition warm_start_of (coef : list Q) (rows : list (list Q)) (k : nat)
  : list Q :=
  match k with
  | O => coef
  | S k' => nth k' rows []
  end.

(** ** [linear_predictor] *)

(** An argument that is [None], one value, or a sequence of values. *)
Inductive selector (A : Type) : Type :=
| SelNone
| SelOne (a : A)
| SelMany (l : list A).

Arguments SelNone {A}.
Arguments SelOne {A} a.
Arguments SelMany {A} l.

(** The fitted attributes that the predictor reads. *)
Record fitted_path : Type := {
  fp_coef : option (list Q);
  fp_intercept : Q;
  fp_coef_path : list (list Q);
  fp_intercept_path : list Q;
  fp_alphas : list Q;
  fp_alpha_search : bool;
  fp_n_features_in : nat
}.

(** A one-dimensional prediction, or one column per selected penalty. *)
Inductive prediction : Type :=
| Pred1 (v : list Q)
| Pred2 (columns : list (list Q)).

(** Python indexing of a sequence by an integer. *)
Definition py_index {A : Type} (l : list A) (d : A) (i : Z) : result A :=
  let n := Z.of_nat (List.length l) in
  if (0 <=? i)%Z && (i <? n)%Z then Ok (nth (Z.to_nat i) l d)
  else if (- n <=? i)%Z && (i <? 0)%Z then Ok (nth (Z.to_nat (i + n)) l d)
  else Raise IndexError.

(** [X @ v] *)
Definition matvec (X : matrix) (v : list Q) : result (list Q) :=
  if negb (Nat.eqb (List.length v) (dim1 X)) then Raise ValueError
  else Ok (map (fun i => sum_range (dim1 X)
                           (fun j => (at_ X i j * nth j v 0)%Q))
               (seq 0 (dim0 X))).

(** [xb += offset] *)
Definition add_offset (xb : list Q) (offset : option (list Q))
  : result (list Q) :=
  match offset with
  | None => Ok xb
  | Some o =>
      if Nat.eqb (List.length o) (List.length xb)
      then Ok (map (fun xo => (fst xo + snd xo)%Q) (combine xb o))
      else if Nat.eqb (List.length o) 1
           then Ok (map (fun x => (x + hd 0 o)%Q) xb)
           else Raise ValueError
  end.

(** [X @ coef + intercept], plus the offset. *)
Definition affine (X : matrix) (coef : list Q) (intercept : Q)
  (offset : option (list Q)) : result (list Q) :=
  xb <- matvec X coef ;;
  add_offset (map (fun x => (x + intercept)%Q) xb) offset.

(** [X @ coef_path_[idx] + intercept_path_[idx]] *)
Definition predict_raw (f : fitted_path) (X : matrix) (idx : Z)
  : result (list Q) :=
  c <- py_index (fp_coef_path f) [] idx ;;
  xb <- matvec X c ;;
  i <- py_index (fp_intercept_path f) 0%Q idx ;;
  Ok (map (fun x => (x + i)%Q) xb).

Definition predict_at (f : fitted_path) (X : matrix)
  (offset : option (list Q)) (idx : Z) : result (list Q) :=
  xb <- predict_raw f X idx ;;
  add_offset xb offset.

Fixpoint map_result {A B : Type} (g : A -> result B) (l : list A)
  : result (list B) :=
  match l with
  | [] => Ok []
  | a :: l' =>
      b <- g a ;;
      bs <- map_result g l' ;;
      Ok (b :: bs)
  end.

(** The index that a requested penalty stands for. *)
Definition alpha_to_index (f : fitted_path) (a : Q) : result Z :=
  i <- _find_alpha_index (fp_alpha_search f) (fp_alphas f) (Some a) ;;
  match i with
  | Some k => Ok (Z.of_nat k)
  | None => Raise TypeError
  end.

(** [linear_predictor] for a numeric design that
    [check_array_tabmat_compliant] lets through (it has at least one row).
    An estimator that is not fitted raises sklearn's [NotFittedError], a
    [ValueError]; the index found for a penalty given by value is never
    [None]. *)
Definition linear_predictor (f : fitted_path) (X : matrix)
  (offset : option (list Q)) (alpha_index : selector Z) (alpha_ : selector Q)
  : result prediction :=
  match fp_coef f with
  | None => Raise ValueError
  | Some coef =>
      alpha_index <-
        match alpha_, alpha_index with
        | SelNone, _ => Ok alpha_index
        | _, SelNone =>
            match alpha_ with
            | SelOne a => i <- alpha_to_index f a ;; Ok (SelOne i)
            | SelMany l => is_ <- map_result (alpha_to_index f) l ;;
                           Ok (SelMany is_)
            | SelNone => Ok SelNone
            end
        | _, _ => Raise ValueError
        end ;;
      if negb (Nat.eqb (dim1 X) (fp_n_features_in f)) then Raise ValueError
      else
        match alpha_index with
        | SelNone =>
            xb <- affine X coef (fp_intercept f) offset ;; Ok (Pred1 xb)
        | SelOne idx =>
            xb <- predict_at f X offset idx ;; Ok (Pred1 xb)
        | SelMany [] => Raise ValueError
        | SelMany idxs =>
            cols <- map_result (predict_raw f X) idxs ;;
            cols <- map_result (fun c => add_offset c offset) cols ;;
            Ok (Pred2 cols)
        end
  end.

(** ** A fitted path used to evaluate the predictor *)

Definition sample_fitted : fitted_path :=
  {| fp_coef := Some [1%Q; 1%Q];
     fp_intercept := 0%Q;
     fp_coef_path := [[0%Q; 0%Q]; [1%Q; 0%Q]; [1%Q; 1%Q]];
     fp_intercept_path := [5%Q; 2%Q; 0%Q];
     fp_alphas := [10%Q; 1%Q; (1 # 10)%Q];
     fp_alpha_search := true;
     fp_n_features_in := 2 |}.

(** ** Wald tests on named features *)

(** [names.index(feature)] *)
Fixpoint list_index (s : string) (names : list string) : option nat :=
  match names with
  | [] => None
  | n :: ns =>
      if String.eqb n s then Some 0%nat
      else match list_index s ns with
           | Some k => Some (S k)
           | None => None
           end
  end.

(** The names and the coefficient vector with the intercept in front. *)
Definition coef_names (fit_icpt : bool) (feature_names_ : list string)
  : list string :=
  if fit_icpt then "intercept"%string :: feature_names_ else feature_names_.

Definition coef_beta (fit_icpt : bool) (icpt : Q) (coef : list Q) : list Q :=
  if fit_icpt then icpt :: coef else coef.

(** The loop of [_wald_test_feature_names]: the column of the one in each
    row of [R]. *)
Fixpoint restriction_columns (names : list string) (ncols : nat)
  (features : list string) : result (list nat) :=
  match features with
  | [] => Ok []
  | ft :: rest =>
      match list_index ft names with
      | None => Raise ValueError
      | Some j =>
          if Nat.ltb j ncols then
            js <- restriction_columns names ncols rest ;;
            Ok (j :: js)
          else Raise IndexError
      end
  end.

(** [R = zeros((len(features), len(beta)))] with [R[i, j_i] = 1]. *)
Definition restriction_matrix (ncols : nat) (js : list nat) : matrix :=
  {| dim0 := List.length js; dim1 := ncols;
     at_ := fun i j =>
       if Nat.ltb i (List.length js) && Nat.eqb j (nth i js 0%nat)
       then 1%Q else 0%Q |}.

(** [R @ beta - r] with the checks of [_wald_test_matrix] on the shapes;
    a missing [r] is zero. *)
Definition restriction_residual (R : matrix) (r : option (list Q))
  (beta : list Q) : result (list Q) :=
  let r := default_to r (repeat 0%Q (dim0 R)) in
  if negb (Nat.eqb (dim0 R) (List.length r)) then Raise ValueError
  else if negb (Nat.eqb (dim1 R) (List.length beta)) then Raise ValueError
  else Ok (map (fun i => (sum_range (dim1 R)
                            (fun j => at_ R i j * nth j beta 0)
                          - nth i r 0)%Q)
               (seq 0 (dim0 R))).

(** [_wald_test_feature_names] up to the test statistic: the restriction
    matrix, the right-hand side and the vector [R beta - r] that the
    statistic is formed from. *)
Definition _wald_test_feature_names (fit_icpt : bool)
  (feature_names_ : list string) (icpt : Q) (coef : list Q)
  (features : list string) (values : option (list Q))
  : result (matrix * list Q) :=
  if match values with
     | Some v => negb (Nat.eqb (List.length features) (List.length v))
     | None => false
     end
  then Raise ValueError
  else
    let names := coef_names fit_icpt feature_names_ in
    let beta := coef_beta fit_icpt icpt coef in
    js <- restriction_columns names (List.length beta) features ;;
    let R := restriction_matrix (List.length beta) js in
    res <- restriction_residual R values beta ;;
    Ok (R, res).

(** * Theorems *)

(** ** Solver selection *)

(** C2, as stated, fails: with a nonzero L1 ratio, [alpha = 0] and no
    path search, no bounds and no constraints, the automatic choice is
    least squares although the stated rule gives coordinate descent. *)
Lemma select_solver_not_claimed :
  solver sample_params = "auto"%string /\
  np_all_zero (l1_ratio sample_params) = false /\
  claimed_solver sample_params = "irls-cd"%string /\
  select_solver sample_params = "irls-ls"%string /\
  select_solver sample_params <> claimed_solver sample_params.
Proof.
  repeat split; try reflexivity.
  vm_compute. discriminate.
Qed.

(** C2 (amended): with [solver = "auto"], inequality constraints select
    the trust-region solver; otherwise bounds select coordinate descent;
    otherwise a nonzero L1 ratio selects coordinate descent unless [alpha]
    is zero and no path is searched; in the remaining cases least squares
    is selected. *)
Theorem select_solver_auto (p : params) :
  solver p = "auto"%string ->
  (is_some (A_ineq p) && is_some (b_ineq p) = true ->
   select_solver p = "trust-constr"%string) /\
  (is_some (A_ineq p) && is_some (b_ineq p) = false ->
   is_some (lower_bounds p) || is_some (upper_bounds p) = true ->
   select_solver p = "irls-cd"%string) /\
  (is_some (A_ineq p) && is_some (b_ineq p) = false ->
   is_some (lower_bounds p) || is_some (upper_bounds p) = false ->
   np_all_zero (l1_ratio p) = false ->
   alpha_is_zero p && negb (alpha_search p) = false ->
   select_solver p = "irls-cd"%string) /\
  (is_some (A_ineq p) && is_some (b_ineq p) = false ->
   is_some (lower_bounds p) || is_some (upper_bounds p) = false ->
   np_all_zero (l1_ratio p) = true \/
   alpha_is_zero p && negb (alpha_search p) = true ->
   select_solver p = "irls-ls"%string).
Proof.
  intros Hauto. unfold select_solver, is_none. rewrite Hauto. simpl.
  repeat split.
  - intros ->. reflexivity.
  - intros -> Hb.
    destruct (lower_bounds p), (upper_bounds p); simpl in *;
      try reflexivity; discriminate.
  - intros -> Hb -> ->.
    destruct (lower_bounds p), (upper_bounds p); simpl in *;
      try reflexivity; discriminate.
  - intros -> Hb Hc.
    destruct (lower_bounds p), (upper_bounds p); simpl in *;
      try discriminate.
    destruct Hc as [-> | ->]; [reflexivity |].
    destruct (np_all_zero (l1_ratio p)); reflexivity.
Qed.

Lemma select_solver_auto_witness :
  solver sample_params = "auto"%string /\
  select_solver sample_params = "irls-ls"%string.
Proof.
  split; [reflexivity |].
  apply (select_solver_auto sample_params); try reflexivity.
  right. reflexivity.
Defined.

(** ** The IRLS loop for a Normal family with an Identity link *)

(** The loop never runs more passes than it has fuel. *)
Lemma irls_loop_count (L : IRLSSteps) (fuel : nat) (inner : inner_solver)
  (d : IRLSData) (n_iter : nat) (coef : list Q) :
  (snd (irls_loop fuel inner d n_iter coef) <= n_iter + fuel)%nat.
Proof.
  revert n_iter coef. induction fuel as [| fuel IH]; intros n_iter coef.
  - simpl. lia.
  - simpl.
    destruct (irls_check d (S n_iter) coef (irls_iterate inner d coef)).
    + simpl. lia.
    + specialize (IH (S n_iter) (irls_iterate inner d coef)). lia.
Qed.

(** With an IRLS solver [_solve] returns what [_irls_solver] returns for
    the settings of [make_irls_data]. *)
Lemma solve_irls (S : Solvers) (p : params) (fam : family) (lnk : link)
  (chosen : string) (gtol : Q) (X : tabmat)
  (y sample_weight P1 coef : list Q) (offset lower upper : option (list Q))
  (A : option (list (list Q))) (b : option (list Q)) :
  chosen = "irls-ls"%string \/ chosen = "irls-cd"%string ->
  _solve p fam lnk chosen gtol X y sample_weight P1 coef offset lower upper
         A b
  = (fst (_irls_solver (irls_inner chosen) coef
            (make_irls_data p fam lnk chosen gtol X y sample_weight P1
                            offset lower upper)),
     Some (snd (_irls_solver (irls_inner chosen) coef
                  (make_irls_data p fam lnk chosen gtol X y sample_weight P1
                                  offset lower upper)))).
Proof.
  intros Hc. unfold _solve.
  destruct (solve_limits p fam lnk chosen gtol) as [t mi].
  destruct Hc as [-> | ->]; cbn [str_in String.eqb Ascii.eqb Bool.eqb
                                 irls_inner];
    match goal with
    | |- context [_irls_solver ?i ?c ?d] =>
        destruct (_irls_solver i c d); reflexivity
    end.
Qed.

(** C4: for a Normal family with an Identity link and an IRLS solver,
    [_solve] hands the loop an iteration limit of one and the fixed pair
    of gradient and step-size tolerances as inner tolerance, and the loop
    runs exactly one iteration: the result is one update of the start
    coefficients by the inner solver, with an iteration count of one.
    For every other family and link pair the loop gets the configured
    [max_iter] and no fixed inner tolerance, and runs at most [max_iter]
    iterations; the two solvers that are not IRLS get the configured
    [max_iter] for every family and link. *)
Theorem solve_normal_identity_one_iteration (L : IRLSSteps)
  (lbfgs : list Q -> tabmat -> list Q -> list Q -> family -> link ->
           nat -> Q -> option (list Q) -> list Q * nat)
  (trust_constr : list Q -> tabmat -> list Q -> list Q -> bool -> family ->
                  link -> nat -> Q -> option (list Q) ->
                  option (list (list Q)) -> option (list Q) -> list Q * nat)
  (p : params) (chosen : string) (gtol : Q) (X : tabmat)
  (y sample_weight P1 coef : list Q) (offset lower upper : option (list Q))
  (A : option (list (list Q))) (b : option (list Q)) :
  (chosen = "irls-ls"%string \/ chosen = "irls-cd"%string ->
   let d := make_irls_data p NormalDistribution IdentityLink chosen gtol
                           X y sample_weight P1 offset lower upper in
   irls_max_iter d = 1%nat /\
   irls_fixed_inner_tol d = Some (gtol, step_size_tol p) /\
   @_solve (spec_solvers lbfgs trust_constr) p NormalDistribution
     IdentityLink chosen gtol X y sample_weight P1 coef offset lower upper
     A b
   = (irls_iterate (irls_inner chosen) d coef, Some 1%nat)) /\
  (forall fam lnk,
     chosen = "irls-ls"%string \/ chosen = "irls-cd"%string ->
     fam <> NormalDistribution \/ lnk <> IdentityLink ->
     let d := make_irls_data p fam lnk chosen gtol
                             X y sample_weight P1 offset lower upper in
     let r := irls_loop (max_iter p) (irls_inner chosen) d 0 coef in
     irls_max_iter d = max_iter p /\
     irls_fixed_inner_tol d = None /\
     @_solve (spec_solvers lbfgs trust_constr) p fam lnk chosen gtol
       X y sample_weight P1 coef offset lower upper A b
     = (fst r, Some (snd r)) /\
     (snd r <= max_iter p)%nat) /\
  (forall fam lnk,
     chosen = "lbfgs"%string ->
     let r := lbfgs coef X y sample_weight fam lnk (max_iter p) gtol
                    offset in
     @_solve (spec_solvers lbfgs trust_constr) p fam lnk chosen gtol
       X y sample_weight P1 coef offset lower upper A b
     = (fst r, Some (snd r))) /\
  (forall fam lnk,
     chosen = "trust-constr"%string ->
     let r := trust_constr coef X y sample_weight (fit_intercept p) fam lnk
                           (max_iter p) gtol offset A b in
     @_solve (spec_solvers lbfgs trust_constr) p fam lnk chosen gtol
       X y sample_weight P1 coef offset lower upper A b
     = (fst r, Some (snd r))).
Proof.
  split; [| split; [| split]].
  - intros Hc d.
    assert (Hd : irls_max_iter d = 1%nat /\
                 irls_fixed_inner_tol d = Some (gtol, step_size_tol p)).
    { subst d. destruct Hc as [-> | ->]; split; reflexivity. }
    destruct Hd as [Hmax Htol]. split; [exact Hmax |].
    split; [exact Htol |].
    rewrite (@solve_irls _ p _ _ chosen gtol X y sample_weight P1 coef
               offset lower upper A b Hc). fold d.
    cbn [_irls_solver spec_solvers]. unfold spec_irls_solver.
    rewrite Hmax. cbn [irls_loop].
    destruct (irls_check d 1 coef (irls_iterate (irls_inner chosen) d coef));
      reflexivity.
  - intros fam lnk Hc Hother d r.
    assert (Hl : solve_limits p fam lnk chosen gtol = (None, max_iter p)).
    { unfold solve_limits.
      destruct fam; simpl; try reflexivity.
      destruct lnk; simpl; try reflexivity.
      destruct Hother as [Hf | Hl]; [now elim Hf | now elim Hl]. }
    assert (Hd : irls_max_iter d = max_iter p /\
                 irls_fixed_inner_tol d = None).
    { subst d. unfold make_irls_data. rewrite Hl. split; reflexivity. }
    destruct Hd as [Hmax Htol]. split; [exact Hmax |].
    split; [exact Htol |]. split.
    + rewrite (@solve_irls _ p _ _ chosen gtol X y sample_weight P1 coef
               offset lower upper A b Hc). fold d.
      cbn [_irls_solver spec_solvers]. unfold spec_irls_solver.
      rewrite Hmax. reflexivity.
    + subst r. apply (irls_loop_count L (max_iter p)).
  - intros fam lnk -> r. unfold _solve.
    destruct (solve_limits p fam lnk "lbfgs" gtol) as [t mi] eqn:El.
    assert (Hmi : mi = max_iter p).
    { unfold solve_limits in El. simpl in El.
      rewrite andb_false_r in El. now inversion El. }
    subst mi. simpl. fold r. destruct r; reflexivity.
  - intros fam lnk -> r. unfold _solve.
    destruct (solve_limits p fam lnk "trust-constr" gtol) as [t mi] eqn:El.
    assert (Hmi : mi = max_iter p).
    { unfold solve_limits in El. simpl in El.
      rewrite andb_false_r in El. now inversion El. }
    subst mi. simpl. fold r. destruct r; reflexivity.
Qed.

Lemma solve_normal_identity_one_iteration_witness :
  @_solve (@spec_solvers sample_steps (_lbfgs_solver (Solvers := sample_solvers))
             (_trust_constr_solver (Solvers := sample_solvers)))
    sample_params NormalDistribution IdentityLink "irls-cd"
    (1 # 10000)%Q sample_X [1%Q; 2%Q] [1%Q; 1%Q] [0%Q; 0%Q] [0%Q; 0%Q]
    None None None None None
  = ([1 + 0; 1 + 0]%Q, Some 1%nat).
Proof.
  destruct (@solve_normal_identity_one_iteration sample_steps
              (_lbfgs_solver (Solvers := sample_solvers))
              (_trust_constr_solver (Solvers := sample_solvers))
              sample_params "irls-cd" (1 # 10000)%Q sample_X
              [1%Q; 2%Q] [1%Q; 1%Q] [0%Q; 0%Q] [0%Q; 0%Q]
              None None None None None) as [Hone _].
  destruct (Hone (or_intror eq_refl)) as [_ [_ E]]. exact E.
Defined.

(** ** Response outside the family's range *)

(** C7: with input checking on, a response entry outside the range of
    the selected family makes [_set_up_for_fit] raise a validation error;
    the coefficients and the intercept of the estimator are left as they
    were, and nothing that is sequenced after the set-up runs. *)
Theorem set_up_rejects_y_out_of_range (D : Distributions) (p : params)
  (st : fit_state) (y : list Q) (fam : family) (v : Q) :
  get_family (family_ p) = Ok fam ->
  check_input p = true ->
  In v y ->
  in_y_range fam v = false ->
  snd (_set_up_for_fit p st y) = Raise ValueError /\
  coef_ (fst (_set_up_for_fit p st y)) = coef_ st /\
  intercept_ (fst (_set_up_for_fit p st y)) = intercept_ st /\
  forall (A : Type) (solve : unit -> result A),
    (u <- snd (_set_up_for_fit p st y) ;; solve u) = Raise ValueError.
Proof.
  intros Hfam Hchk Hin Hout.
  assert (Hall : forallb (in_y_range fam) y = false).
  { destruct (forallb (in_y_range fam) y) eqn:E; [| reflexivity].
    rewrite forallb_forall in E. rewrite (E v Hin) in Hout. discriminate. }
  assert (Hraise : snd (_set_up_for_fit p st y) = Raise ValueError).
  { unfold _set_up_for_fit. rewrite Hfam.
    destruct (get_link (link_ p) fam) as [lnk | e] eqn:El.
    - rewrite Hchk, Hall. reflexivity.
    - simpl. f_equal.
      unfold get_link, auto_link in El.
      repeat match type of El with
             | context [match ?x with _ => _ end] => destruct x
             | context [if ?x then _ else _] => destruct x
             end; congruence. }
  split; [exact Hraise |].
  split; [| split].
  - unfold _set_up_for_fit. rewrite Hfam.
    destruct (get_link (link_ p) fam); [| reflexivity].
    destruct (check_input p && negb (forallb (in_y_range fam) y));
      reflexivity.
  - unfold _set_up_for_fit. rewrite Hfam.
    destruct (get_link (link_ p) fam); [| reflexivity].
    destruct (check_input p && negb (forallb (in_y_range fam) y));
      reflexivity.
  - intros A solve. rewrite Hraise. reflexivity.
Qed.

Lemma set_up_rejects_y_out_of_range_witness :
  snd (@_set_up_for_fit sample_distributions sample_params empty_state
         [1%Q; (-1)%Q]) = Raise ValueError.
Proof.
  apply (@set_up_rejects_y_out_of_range sample_distributions sample_params
           empty_state [1%Q; (-1)%Q] PoissonDistribution (-1)%Q).
  - reflexivity.
  - reflexivity.
  - simpl. right. left. reflexivity.
  - reflexivity.
Defined.

(** ** The maximum penalty of the path *)

Section AlphaMax.

Open Scope Q_scope.

Lemma Qmax2_cases (a b : Q) : Qmax2 a b = a \/ Qmax2 a b = b.
Proof. unfold Qmax2. destruct (Qle_bool a b); auto. Qed.

Lemma Qmax2_ge_l (a b : Q) : a <= Qmax2 a b.
Proof.
  unfold Qmax2. destruct (Qle_bool a b) eqn:E.
  - now apply Qle_bool_iff.
  - apply Qle_refl.
Qed.

Lemma Qmax2_ge_r (a b : Q) : b <= Qmax2 a b.
Proof.
  unfold Qmax2. destruct (Qle_bool a b) eqn:E.
  - apply Qle_refl.
  - destruct (Qlt_le_dec b a) as [Hlt | Hle].
    + now apply Qlt_le_weak.
    + apply Qle_bool_iff in Hle. congruence.
Qed.

Lemma fold_left_Qmax2_in (xs : list Q) (x : Q) :
  In (fold_left Qmax2 xs x) (x :: xs).
Proof.
  revert x. induction xs as [| a xs IH]; intros x; simpl.
  - now left.
  - destruct (IH (Qmax2 x a)) as [H | H].
    + destruct (Qmax2_cases x a) as [E | E]; rewrite E in *; auto.
    + auto.
Qed.

Lemma fold_left_Qmax2_ge_init (xs : list Q) (x : Q) :
  x <= fold_left Qmax2 xs x.
Proof.
  revert x. induction xs as [| a xs IH]; intros x; simpl.
  - apply Qle_refl.
  - eapply Qle_trans; [apply (Qmax2_ge_l x a) | apply IH].
Qed.

Lemma fold_left_Qmax2_ge (xs : list Q) (x v : Q) :
  In v (x :: xs) -> v <= fold_left Qmax2 xs x.
Proof.
  revert x. induction xs as [| a xs IH]; intros x Hin; simpl.
  - destruct Hin as [-> | []]. apply Qle_refl.
  - destruct Hin as [-> | [-> | Hin]].
    + eapply Qle_trans; [apply (Qmax2_ge_l v a) | apply fold_left_Qmax2_ge_init].
    + eapply Qle_trans; [apply (Qmax2_ge_r x v) | apply fold_left_Qmax2_ge_init].
    + apply IH. now right.
Qed.

Lemma Qlt_bool_iff (a b : Q) : Qlt_bool a b = true <-> a < b.
Proof.
  unfold Qlt_bool. rewrite negb_true_iff. split.
  - intros E. destruct (Qlt_le_dec a b) as [H | H]; [exact H |].
    apply Qle_bool_iff in H. congruence.
  - intros H. destruct (Qle_bool b a) eqn:E; [| reflexivity].
    apply Qle_bool_iff in E. exfalso. exact (Qlt_not_le _ _ H E).
Qed.

(** The selected ratios are the ratios of the penalized coordinates. *)
Lemma penalty_ratios_masked (f : Q -> bool) (g P1 : list Q) :
  List.length g = List.length P1 ->
  penalty_ratios (mask_filter g (map f P1)) (mask_filter P1 (map f P1))
  = map (fun gp => Qabs (- (1 # 2) * fst gp / snd gp))
        (filter (fun gp => f (snd gp)) (combine g P1)).
Proof.
  revert P1. induction g as [| a g IH]; intros [| b P1] Hlen;
    simpl in *; try reflexivity; try discriminate.
  injection Hlen as Hlen.
  destruct (f b); simpl; rewrite IH by assumption; reflexivity.
Qed.

Lemma in_combine_nth (g P1 : list Q) (a b : Q) :
  List.length g = List.length P1 ->
  In (a, b) (combine g P1) <->
  exists j, (j < List.length P1)%nat /\ nth j g 0 = a /\ nth j P1 0 = b.
Proof.
  intros Hlen. split.
  - intros Hin. destruct (In_nth _ _ (0, 0) Hin) as [j [Hj E]].
    rewrite length_combine, Hlen, Nat.min_id in Hj.
    rewrite combine_nth in E by assumption.
    exists j. injection E as E1 E2. auto.
  - intros [j [Hj [E1 E2]]].
    rewrite <- E1, <- E2, <- combine_nth by assumption.
    apply nth_In. rewrite length_combine, Hlen, Nat.min_id. exact Hj.
Qed.

(** [np.abs(-0.5 * g / p)] is [|g| / (2 p)] for a positive weight. *)
Lemma penalty_ratio_kkt (g p1 : Q) :
  0 < p1 -> Qabs (- (1 # 2) * g / p1) == kkt_ratio g p1.
Proof.
  intros Hp. unfold kkt_ratio.
  assert (Hne : ~ p1 == 0) by (intros E; rewrite E in Hp; discriminate).
  assert (E : - (1 # 2) * g / p1 == (- (1 # 2) / p1) * g) by (field; exact Hne).
  rewrite E, Qabs_Qmult.
  assert (Hneg : - (1 # 2) / p1 <= 0).
  { apply Qle_shift_div_r; [exact Hp | Lqa.lra]. }
  rewrite (Qabs_neg _ Hneg). field. exact Hne.
Qed.

(** A non-negative vector that is not all zero has a positive entry. *)
Lemma nonneg_not_all_zero (P1 : list Q) :
  (forall v, In v P1 -> 0 <= v) ->
  np_all_zero P1 = false ->
  exists j, (j < List.length P1)%nat /\ 0 < nth j P1 0.
Proof.
  induction P1 as [| a P1 IH]; intros Hnn Hnz; simpl in *; [discriminate |].
  destruct (Qeq_bool a 0) eqn:E; simpl in Hnz.
  - destruct IH as [j [Hj Hpos]]; [intros v Hv; apply Hnn; now right | exact Hnz |].
    exists (S j). split; [lia | exact Hpos].
  - exists 0%nat. split; [lia |].
    assert (0 <= a) by (apply Hnn; now left).
    apply Qeq_bool_neq in E.
    destruct (Qlt_le_dec 0 a) as [Hlt | Hle]; [exact Hlt |].
    exfalso. apply E. now apply Qle_antisym.
Qed.

End AlphaMax.



(** ** The log-spaced grid *)

Section Grid.

Context {N : Numpy}.

Lemma nth_map_seq {A : Type} (f : nat -> A) (n i : nat) (d : A) :
  (i < n)%nat -> nth i (map f (seq 0 n)) d = f i.
Proof.
  intros Hi. rewrite (nth_indep _ d (f 0%nat)) by (rewrite length_map, length_seq; exact Hi).
  rewrite map_nth, seq_nth by exact Hi. reflexivity.
Qed.

Lemma length_np_logspace (start stop : float) (num : nat) :
  List.length (np_logspace start stop num) = num.
Proof.
  unfold np_logspace, np_linspace. now rewrite !length_map, length_seq.
Qed.

Lemma nth_np_logspace (start stop d : float) (num i : nat) :
  (i < num)%nat ->
  nth i (np_logspace start stop num) d
  = np_power np_e (linspace_point start stop num i).
Proof.
  intros Hi. unfold np_logspace, np_linspace. rewrite map_map.
  exact (nth_map_seq
           (fun k => np_power np_e (linspace_point start stop num k))
           d Hi).
Qed.

(** The last of at least two points is [stop] itself. *)
Lemma linspace_point_last (start stop : float) (num : nat) :
  (2 <= num)%nat -> linspace_point start stop num (num - 1) = stop.
Proof.
  intros Hn. unfold linspace_point.
  assert (E : Nat.ltb 1 num = true) by (apply Nat.ltb_lt; lia).
  now rewrite E, Nat.eqb_refl.
Qed.

(** The points before the last one. *)
Lemma linspace_point_inner (start stop : float) (num i : nat) :
  (i + 1 < num)%nat ->
  linspace_point start stop num i
  = if PrimFloat.eqb ((stop - start) / float_of_nat (num - 1)) 0
    then (float_of_nat i / float_of_nat (num - 1) * (stop - start)
          + start)%float
    else (float_of_nat i * ((stop - start) / float_of_nat (num - 1))
          + start)%float.
Proof.
  intros Hi. unfold linspace_point.
  assert (E1 : Nat.eqb i (num - 1) = false) by (apply Nat.eqb_neq; lia).
  assert (E2 : Nat.ltb 0 (num - 1) = true) by (apply Nat.ltb_lt; lia).
  now rewrite E1, andb_false_r, E2.
Qed.

End Grid.




(** ** The L2 penalty *)

(** C8 on the code: [setup_p2] multiplies the specified weights by
    [alpha * (1 - l1_ratio)], replaces a two-dimensional result by half
    the sum of the scaled matrix and its transpose, and raises a
    validation error for an array of any other shape; but for the uniform
    specification and for a vector the result is a dense vector for every
    design, also for one that is stored sparse, and not a sparse diagonal
    matrix. *)
Theorem setup_p2_dense_for_sparse_design (X : tabmat)
  (alpha l1_ratio : Q) :
  let c := (alpha * (1 - l1_ratio))%Q in
  let n := shape1 X in
  (* the uniform specification and vectors *)
  setup_p2 (P2Str "identity") X alpha l1_ratio
  = Ok (P2Dense1 (map (fun x => (c * x)%Q) (np_ones n))) /\
  setup_p2 P2None X alpha l1_ratio
  = Ok (P2Dense1 (map (fun x => (c * x)%Q) (np_ones n))) /\
  (forall v, List.length v = n ->
     setup_p2 (P2Array1 v) X alpha l1_ratio
     = Ok (P2Dense1 (map (fun x => (c * x)%Q) v))) /\
  (* square matrices of the right size *)
  (forall M, dim0 M = n -> dim1 M = n ->
     exists m,
       setup_p2 (P2Array2 M) X alpha l1_ratio = Ok (P2Dense2 m) /\
       dim0 m = n /\ dim1 m = n /\
       forall i j,
         (at_ m i j == (1 # 2) * (c * at_ M i j + c * at_ M j i))%Q) /\
  (forall fmt M, dim0 M = n -> dim1 M = n ->
     exists m,
       setup_p2 (P2SparseArray fmt M) X alpha l1_ratio
       = Ok (P2Sparse fmt m) /\
       dim0 m = n /\ dim1 m = n /\
       forall i j,
         (at_ m i j == (1 # 2) * (c * at_ M i j + c * at_ M j i))%Q) /\
  (* everything else *)
  (forall s, s <> "identity"%string ->
     setup_p2 (P2Str s) X alpha l1_ratio = Raise ValueError) /\
  (forall v, List.length v <> n ->
     setup_p2 (P2Array1 v) X alpha l1_ratio = Raise ValueError) /\
  (forall M, ~ (dim0 M = n /\ dim1 M = n) ->
     setup_p2 (P2Array2 M) X alpha l1_ratio = Raise ValueError /\
     forall fmt,
       setup_p2 (P2SparseArray fmt M) X alpha l1_ratio = Raise ValueError).
Proof.
  intros c n. subst c.
  unfold setup_p2, p2_prepare, p2_uniform, issparse. fold n.
  repeat match goal with |- _ /\ _ => split end.
  - reflexivity.
  - reflexivity.
  - intros v Hv. rewrite Hv, Nat.eqb_refl. reflexivity.
  - intros M H0 H1. unfold p2_square. rewrite H0, H1, Nat.eqb_refl. simpl.
    eexists. split; [reflexivity |]. simpl. split; [exact H0 |].
    split; [exact H1 |]. intros i j. reflexivity.
  - intros fmt M H0 H1. unfold p2_square. rewrite H0, H1, Nat.eqb_refl.
    simpl. eexists. split; [reflexivity |]. simpl. split; [exact H0 |].
    split; [exact H1 |]. intros i j. reflexivity.
  - intros s Hs. apply String.eqb_neq in Hs. rewrite Hs. reflexivity.
  - intros v Hv. apply Nat.eqb_neq in Hv. rewrite Hv. reflexivity.
  - intros M Hbad.
    assert (E : p2_square n M = false).
    { unfold p2_square.
      destruct (Nat.eqb_spec (dim0 M) (dim1 M)) as [E1 | E1];
        [| reflexivity].
      destruct (Nat.eqb_spec (dim0 M) n) as [E2 | E2]; [| reflexivity].
      exfalso. apply Hbad. split; congruence. }
    rewrite E. split; [reflexivity | intros fmt; reflexivity].
Qed.

Lemma setup_p2_dense_for_sparse_design_witness :
  is_SparseMatrix sparse_design = true /\
  setup_p2 (P2Str "identity") sparse_design 2%Q (1 # 2)%Q
  = Ok (P2Dense1 (map (fun x => (2 * (1 - (1 # 2)) * x)%Q) [1%Q; 1%Q])) /\
  setup_p2 (P2Array1 [3%Q; 5%Q]) sparse_design 2%Q (1 # 2)%Q
  = Ok (P2Dense1 (map (fun x => (2 * (1 - (1 # 2)) * x)%Q) [3%Q; 5%Q])) /\
  setup_p2 (P2Array1 [3%Q]) sparse_design 2%Q (1 # 2)%Q = Raise ValueError.
Proof.
  pose proof (setup_p2_dense_for_sparse_design sparse_design 2%Q (1 # 2)%Q)
    as [Hid [_ [Hvec [_ [_ [_ [Hbad _]]]]]]].
  split; [reflexivity |]. split; [exact Hid |]. split.
  - apply Hvec. reflexivity.
  - apply Hbad. simpl. discriminate.
Defined.

(** ** The covariance estimator *)

(** C9: when the condition number of [X'X] exceeds [1 / eps^2] the
    covariance computation raises the singular-matrix error and the stored
    covariance matrix is left as it was. *)
Theorem covariance_matrix_singular (I : Information)
  (fit_icpt self_robust self_expected_information : bool)
  (n_features_in_ : nat) (fam : family) (lnk : link)
  (stored : option matrix) (X : tabmat) (y sample_weight : list Q)
  (offset mu : option (list Q)) (disp : option Q)
  (robust expected_information : option bool) (clusters : option (list Z))
  (store_covariance_matrix : bool) :
  cond_gt (linalg_cond (sandwich (mat X) (np_ones (shape0 X))))
          (1 / (float_epsilon * float_epsilon))%Q = true ->
  covariance_matrix fit_icpt self_robust self_expected_information
    n_features_in_ fam lnk stored X y sample_weight offset mu disp
    robust expected_information clusters store_covariance_matrix
  = (stored, Raise LinAlgError).
Proof.
  intros Hcond. unfold covariance_matrix. rewrite Hcond. reflexivity.
Qed.

Lemma covariance_matrix_singular_witness :
  @covariance_matrix sample_information false true false 1
    NormalDistribution IdentityLink None (zero_design 4)
    [1%Q; 1%Q; 1%Q; 1%Q] [1%Q; 1%Q; 1%Q; 1%Q] None None None
    None None None true
  = (None, Raise LinAlgError).
Proof.
  apply (@covariance_matrix_singular sample_information).
  vm_compute. reflexivity.
Defined.

(** C3 on the code: for four unit-weight observations in two clusters,
    one feature and no intercept, the clustered estimate is the sandwich
    ([8] here) times [(M / (M - 1)) * ((N - 1) / (N - p)) = 2], not times
    the documented [(M / (M - 1)) * (N / (N - p)) = 8 / 3]. *)
Theorem clustered_covariance_correction :
  exists vcov,
    snd (@covariance_matrix sample_information false true false 1
           NormalDistribution IdentityLink None (ones_design 4)
           [1%Q; 1%Q; 1%Q; 1%Q] [1%Q; 1%Q; 1%Q; 1%Q] None None None
           None None (Some [0%Z; 0%Z; 1%Z; 1%Z]) false)
    = Ok vcov /\
    (exists c, clustered_correction 2 4%Q 1 false = Ok c /\ (c == 2)%Q) /\
    (documented_clustered_correction 2 4%Q 1 false == 8 # 3)%Q /\
    (at_ vcov 0%nat 0%nat == 2 * 8)%Q /\
    ~ (at_ vcov 0%nat 0%nat
       == documented_clustered_correction 2 4%Q 1 false * 8)%Q.
Proof.
  eexists. split; [reflexivity |].
  split; [eexists; split; reflexivity |].
  split; [reflexivity |].
  split; [reflexivity |].
  vm_compute. discriminate.
Qed.

(** ** The sample weights handed to the solvers *)




(** * Further properties of the code *)

(** ** More on the maximum penalty *)

Section AlphaMaxMore.

Open Scope Q_scope.

Context `{D : Distributions}.
Variables (p : params) (fam : family) (lnk : link) (X : tabmat)
          (y w : list Q) (offset : option (list Q)).

Lemma alpha_path_gradient_null :
  skipn (fst (alpha_path_coef p fam lnk X y w))
        (alpha_path_gradient p fam lnk X y w offset)
  = null_gradient p fam lnk X y w offset.
Proof.
  unfold null_gradient, alpha_path_gradient, alpha_path_coef, null_coef.
  destruct (fit_intercept p); reflexivity.
Qed.

Lemma get_alpha_max_unfold (P1 : list Q) :
  np_all_zero P1 = false ->
  List.length (null_gradient p fam lnk X y w offset) = List.length P1 ->
  get_alpha_max p fam lnk P1 X y w offset
  = np_max (map (fun gp => Qabs (- (1 # 2) * fst gp / snd gp))
                (penalized_pairs (null_gradient p fam lnk X y w offset) P1)).
Proof.
  intros Hnz Hlen. unfold get_alpha_max. rewrite Hnz, alpha_path_gradient_null.
  unfold mask_select. rewrite length_map, Hlen, Nat.eqb_refl. simpl.
  now rewrite (penalty_ratios_masked (fun v => Qlt_bool 0 v) _ P1 Hlen).
Qed.

Lemma get_alpha_max_mismatch (P1 : list Q) :
  np_all_zero P1 = false ->
  List.length (null_gradient p fam lnk X y w offset) <> List.length P1 ->
  get_alpha_max p fam lnk P1 X y w offset = Raise IndexError.
Proof.
  intros Hnz Hlen. unfold get_alpha_max. rewrite Hnz, alpha_path_gradient_null.
  unfold mask_select. rewrite length_map.
  apply Nat.eqb_neq in Hlen. rewrite Hlen. reflexivity.
Qed.

Lemma penalized_pairs_nth (P1 : list Q) (a b : Q) :
  List.length (null_gradient p fam lnk X y w offset) = List.length P1 ->
  In (a, b) (penalized_pairs (null_gradient p fam lnk X y w offset) P1) <->
  exists j, (j < List.length P1)%nat /\
            nth j (null_gradient p fam lnk X y w offset) 0 = a /\
            nth j P1 0 = b /\ 0 < b.
Proof.
  intros Hlen. unfold penalized_pairs.
  rewrite filter_In, (in_combine_nth _ P1 a b Hlen). simpl.
  rewrite Qlt_bool_iff. split.
  - intros [[j [Hj [E1 E2]]] Hb]. exists j. auto.
  - intros [j [Hj [E1 [E2 Hb]]]]. split; [exists j; auto | exact Hb].
Qed.

(** X2: A weight vector that is not all zero but has no positive entry makes
    the path generation fail in [np.max]; a gradient whose length differs
    from that of the weights fails in the mask selection. *)
Theorem alpha_max_errors (P1 : list Q) :
  np_all_zero P1 = false ->
  (List.length (null_gradient p fam lnk X y w offset) = List.length P1 ->
   (forall v, In v P1 -> v <= 0) ->
   get_alpha_max p fam lnk P1 X y w offset = Raise ValueError) /\
  (List.length (null_gradient p fam lnk X y w offset) <> List.length P1 ->
   get_alpha_max p fam lnk P1 X y w offset = Raise IndexError).
Proof.
  intros Hnz. split; [| now apply get_alpha_max_mismatch].
  intros Hlen Hneg. rewrite (get_alpha_max_unfold P1 Hnz Hlen).
  destruct (penalized_pairs (null_gradient p fam lnk X y w offset) P1) as [| [a b] l] eqn:E; [reflexivity |].
  exfalso.
  assert (Hin : In (a, b) (penalized_pairs (null_gradient p fam lnk X y w offset) P1)) by (rewrite E; now left).
  apply (penalized_pairs_nth P1 a b Hlen) in Hin.
  destruct Hin as [j [Hj [_ [Eb Hb]]]].
  assert (Hle : b <= 0) by (apply Hneg; rewrite <- Eb; now apply nth_In).
  exact (Qlt_not_le _ _ Hb Hle).
Qed.

End AlphaMaxMore.

Lemma alpha_max_errors_witness :
  @get_alpha_max sample_distributions sample_params PoissonDistribution
    LogLink [(-1)%Q; 0%Q] sample_X [1%Q; 3%Q] [1%Q; 1%Q] None
  = Raise ValueError /\
  @get_alpha_max sample_distributions sample_params PoissonDistribution
    LogLink [2%Q] sample_X [1%Q; 3%Q] [1%Q; 1%Q] None
  = Raise IndexError.
Proof.
  split.
  - apply (@alpha_max_errors sample_distributions sample_params
             PoissonDistribution LogLink sample_X [1%Q; 3%Q] [1%Q; 1%Q] None
             [(-1)%Q; 0%Q]).
    + reflexivity.
    + reflexivity.
    + intros v [<- | [<- | []]]; discriminate.
  - apply (@alpha_max_errors sample_distributions sample_params
             PoissonDistribution LogLink sample_X [1%Q; 3%Q] [1%Q; 1%Q] None
             [2%Q]).
    + reflexivity.
    + simpl. discriminate.
Defined.

(** ** The L1 penalty *)

(** X4: on success [setup_p1] returns one weight per feature, non-negative
    when the specified weights and both factors are; an array that cannot
    be cast safely to the dtype is a type error whatever its shape, and
    among the arrays that can be cast one of another length or dimension
    is a validation error, as is a string other than ["identity"]. *)
Theorem setup_p1_shape (P1 : p1_spec) (X : tabmat) (alpha l1_ratio : Q) :
  (forall v, setup_p1 P1 X alpha l1_ratio = Ok v ->
     List.length v = shape1 X /\
     ((0 <= alpha)%Q -> (0 <= l1_ratio)%Q ->
      (forall u, P1 = P1Array1 u -> forall x, In x u -> (0 <= x)%Q) ->
      forall x, In x v -> (0 <= x)%Q)) /\
  (P1 = P1Uncastable -> setup_p1 P1 X alpha l1_ratio = Raise TypeError) /\
  (forall u, P1 = P1Array1 u -> List.length u <> shape1 X ->
     setup_p1 P1 X alpha l1_ratio = Raise ValueError) /\
  (forall m, P1 = P1Array2 m ->
     setup_p1 P1 X alpha l1_ratio = Raise ValueError) /\
  (forall s, P1 = P1Str s -> s <> "identity"%string ->
     setup_p1 P1 X alpha l1_ratio = Raise ValueError).
Proof.
  assert (Hones : forall n x, In x (np_ones n) -> (0 <= x)%Q).
  { intros n x Hx. apply repeat_spec in Hx. subst x. discriminate. }
  assert (Hscale : forall (u : list Q),
             (0 <= alpha)%Q -> (0 <= l1_ratio)%Q ->
             (forall x, In x u -> (0 <= x)%Q) ->
             forall x, In x (map (fun x => (alpha * l1_ratio * x)%Q) u) ->
                       (0 <= x)%Q).
  { intros u Ha Hl Hu x Hx. apply in_map_iff in Hx.
    destruct Hx as [x0 [<- Hx0]].
    apply Qmult_le_0_compat; [now apply Qmult_le_0_compat | now apply Hu]. }
  unfold setup_p1. repeat split.
  - destruct P1 as [s | | u | m |]; simpl in H.
    + destruct (String.eqb s "identity"); simpl in H; [| discriminate].
      injection H as <-. rewrite length_map. apply repeat_length.
    + injection H as <-. rewrite length_map. apply repeat_length.
    + destruct (Nat.eqb_spec (List.length u) (shape1 X)) as [E | E];
        simpl in H; [| discriminate].
      injection H as <-. now rewrite length_map.
    + discriminate.
    + discriminate.
  - intros Ha Hl Hu. destruct P1 as [s | | u | m |]; simpl in H.
    + destruct (String.eqb s "identity"); simpl in H; [| discriminate].
      injection H as <-. apply Hscale; auto. apply Hones.
    + injection H as <-. apply Hscale; auto. apply Hones.
    + destruct (Nat.eqb (List.length u) (shape1 X)); simpl in H;
        [| discriminate].
      injection H as <-. apply Hscale; auto. now apply Hu.
    + discriminate.
    + discriminate.
  - intros ->. reflexivity.
  - intros u -> Hne. apply Nat.eqb_neq in Hne. simpl. now rewrite Hne.
  - intros m ->. reflexivity.
  - intros s -> Hne. apply String.eqb_neq in Hne. simpl. now rewrite Hne.
Qed.

Lemma setup_p1_shape_witness :
  setup_p1 (P1Array1 [3%Q]) sample_X 1%Q 1%Q = Raise ValueError /\
  setup_p1 P1Uncastable sample_X 1%Q 1%Q = Raise TypeError /\
  exists v, setup_p1 P1None sample_X 2%Q (1 # 2)%Q = Ok v /\
            List.length v = 2%nat.
Proof.
  split; [| split].
  - apply (proj1 (proj2 (proj2
             (@setup_p1_shape (P1Array1 [3%Q]) sample_X 1%Q 1%Q)))
             [3%Q]); [reflexivity | simpl; discriminate].
  - apply (proj1 (proj2 (@setup_p1_shape P1Uncastable sample_X 1%Q 1%Q))).
    reflexivity.
  - eexists. split; [reflexivity |].
    apply (proj1 (@setup_p1_shape P1None sample_X 2%Q (1 # 2)%Q) _ eq_refl).
Defined.

(** X5: with a zero L1 ratio (or a zero penalty strength) every L1 weight
    that [setup_p1] returns is zero, so the path generator falls back to
    the fixed maximum 10 whatever the data. *)
Theorem setup_p1_zero_ratio_path (D : Distributions) (p : params)
  (fam : family) (lnk : link) (P1 : p1_spec) (X : tabmat)
  (alpha l1_ratio : Q) (y w : list Q) (offset : option (list Q))
  (v : list Q) :
  setup_p1 P1 X alpha l1_ratio = Ok v ->
  (alpha == 0)%Q \/ (l1_ratio == 0)%Q ->
  np_all_zero v = true /\
  get_alpha_max p fam lnk v X y w offset = Ok 10%Q.
Proof.
  intros Hv Hz.
  assert (Hall : np_all_zero v = true).
  { unfold setup_p1 in Hv.
    destruct (match P1 with
              | P1Str s => _ | P1None => _ | P1Array1 u => _ | P1Array2 _ => _
              | P1Uncastable => _
              end) as [u | e]; simpl in Hv; [| discriminate].
    injection Hv as <-. unfold np_all_zero. apply forallb_forall.
    intros x Hx. apply in_map_iff in Hx. destruct Hx as [x0 [<- _]].
    apply Qeq_bool_iff. destruct Hz as [-> | ->]; ring. }
  split; [exact Hall |]. unfold get_alpha_max. now rewrite Hall.
Qed.

Lemma setup_p1_zero_ratio_path_witness :
  @get_alpha_max sample_distributions sample_params PoissonDistribution
    LogLink (map (fun x => (1 * 0 * x)%Q) [3%Q; 5%Q]) sample_X
    [1%Q; 3%Q] [1%Q; 1%Q] None = Ok 10%Q.
Proof.
  apply (@setup_p1_zero_ratio_path sample_distributions sample_params
           PoissonDistribution LogLink (P1Array1 [3%Q; 5%Q]) sample_X
           1%Q 0%Q [1%Q; 3%Q] [1%Q; 1%Q] None).
  - reflexivity.
  - right. reflexivity.
Defined.

(** ** More on the grid *)

(** X6: with an explicit [min_alpha] that is not at or above the maximum
    penalty, the grid has [n_alphas] points, the last of at least two
    being [e] raised to [log(min_alpha)], and [min_alpha_ratio] is
    ignored; the error is raised exactly when the comparison
    [min_alpha >= max_alpha] holds, so never for a maximum that is not a
    number. *)
Theorem make_grid_explicit_min_alpha (N : Numpy)
  (ratio ratio' : option float) (num : nat) (max_alpha m : float) :
  (_make_grid (Some m) ratio num max_alpha = Raise ValueError <->
   PrimFloat.leb max_alpha m = true) /\
  _make_grid (Some m) ratio num max_alpha
  = _make_grid (Some m) ratio' num max_alpha /\
  (PrimFloat.leb max_alpha m = false ->
   exists path,
     _make_grid (Some m) ratio num max_alpha = Ok path /\
     List.length path = num /\
     ((2 <= num)%nat ->
      nth (num - 1) path nan = np_power np_e (np_log m))) /\
  _make_grid (Some m) ratio num nan
  = Ok (np_logspace (np_log nan) (np_log m) num).
Proof.
  split; [| split; [| split]].
  - unfold _make_grid. destruct (PrimFloat.leb max_alpha m); split;
      intros H; try reflexivity; discriminate.
  - reflexivity.
  - intros Hlt. unfold _make_grid. rewrite Hlt.
    eexists. split; [reflexivity |]. split; [apply length_np_logspace |].
    intros Hn. rewrite nth_np_logspace by lia.
    now rewrite linspace_point_last.
  - assert (E : PrimFloat.leb nan m = false).
    { rewrite leb_spec. reflexivity. }
    unfold _make_grid. now rewrite E.
Qed.

Lemma make_grid_explicit_min_alpha_witness :
  exists path,
    @_make_grid sample_numpy (Some 0%float) None 4 1%float = Ok path /\
    List.length path = 4%nat /\
    nth 3 path nan = 0%float.
Proof.
  destruct (@make_grid_explicit_min_alpha sample_numpy None None 4
              1%float 0%float) as [_ [_ [Hpath _]]].
  destruct (Hpath eq_refl) as [path [Hp [Hlen Hlast]]].
  exists path. split; [exact Hp |]. split; [exact Hlen |].
  exact (Hlast ltac:(lia)).
Defined.

(** ** More on the L2 penalty *)

(** X7: A two-dimensional result of [setup_p2] is a symmetric square matrix
    of the size of the feature count. *)
Theorem setup_p2_symmetric (P2 : p2_spec) (X : tabmat) (alpha l1_ratio : Q)
  (m : matrix) :
  setup_p2 P2 X alpha l1_ratio = Ok (P2Dense2 m) \/
  (exists fmt, setup_p2 P2 X alpha l1_ratio = Ok (P2Sparse fmt m)) ->
  dim0 m = shape1 X /\ dim1 m = shape1 X /\
  forall i j, (at_ m i j == at_ m j i)%Q.
Proof.
  intros H.
  assert (Hsym : forall m0 : matrix,
            forall i j,
              (at_ (mscale (1 # 2) (madd m0 (transpose m0))) i j
               == at_ (mscale (1 # 2) (madd m0 (transpose m0))) j i)%Q).
  { intros m0 i j. cbn [at_ mscale madd transpose]. ring. }
  assert (Hprep : forall v, p2_prepare P2 X = Ok v ->
            match v with
            | P2Dense1 _ => True
            | P2Dense2 m0 | P2Sparse _ m0 =>
                dim0 m0 = shape1 X /\ dim1 m0 = shape1 X
            end).
  { intros v Hv. unfold p2_prepare, p2_uniform, p2_square in Hv.
    destruct P2 as [s | | u | M | fmt M]; simpl in Hv.
    - destruct (String.eqb s "identity"); simpl in Hv; [| discriminate].
      destruct (issparse X); injection Hv as <-; simpl; auto.
    - destruct (issparse X); injection Hv as <-; simpl; auto.
    - destruct (Nat.eqb (List.length u) (shape1 X)); simpl in Hv;
        [| discriminate].
      destruct (issparse X); injection Hv as <-; simpl; auto.
    - destruct (Nat.eqb_spec (dim0 M) (dim1 M)) as [E1 | E1]; simpl in Hv;
        [| discriminate].
      destruct (Nat.eqb_spec (dim0 M) (shape1 X)) as [E2 | E2]; simpl in Hv;
        [| discriminate].
      destruct (issparse X); injection Hv as <-; simpl; split; congruence.
    - destruct (Nat.eqb_spec (dim0 M) (dim1 M)) as [E1 | E1]; simpl in Hv;
        [| discriminate].
      destruct (Nat.eqb_spec (dim0 M) (shape1 X)) as [E2 | E2]; simpl in Hv;
        [| discriminate].
      destruct (issparse X); injection Hv as <-; simpl; split; congruence. }
  unfold setup_p2 in H.
  destruct (p2_prepare P2 X) as [v | e] eqn:Ev; simpl in H.
  2:{ destruct H as [H | [fmt H]]; discriminate. }
  specialize (Hprep v eq_refl).
  destruct v as [u | m0 | fmt0 m0]; simpl in H.
  - destruct H as [H | [fmt H]]; discriminate.
  - destruct H as [H | [fmt H]]; [| discriminate].
    injection H as <-. destruct Hprep as [H0 H1].
    split; [exact H0 |]. split; [exact H1 |].
    apply (Hsym (mscale (alpha * (1 - l1_ratio)) m0)).
  - destruct H as [H | [fmt H]]; [discriminate |].
    injection H as _ <-. destruct Hprep as [H0 H1].
    split; [exact H0 |]. split; [exact H1 |].
    apply (Hsym (mscale (alpha * (1 - l1_ratio)) m0)).
Qed.

Lemma setup_p2_symmetric_witness :
  exists m,
    setup_p2 (P2Array2 {| dim0 := 2; dim1 := 2;
                          at_ := fun i j => inject_Z (Z.of_nat (i + 2 * j)) |})
             sample_X 1%Q 0%Q = Ok (P2Dense2 m) /\
    (at_ m 0%nat 1%nat == at_ m 1%nat 0%nat)%Q.
Proof.
  eexists. split; [reflexivity |].
  apply (@setup_p2_symmetric
           (P2Array2 {| dim0 := 2; dim1 := 2;
                        at_ := fun i j => inject_Z (Z.of_nat (i + 2 * j)) |})
           sample_X 1%Q 0%Q).
  left. reflexivity.
Defined.

(** ** Summing over groups *)

Section GroupSum.

Open Scope Q_scope.

Lemma column_indices_error (n : nat) (groups : list Z) (g : Z) :
  In g groups -> (g < - Z.of_nat n \/ Z.of_nat n <= g)%Z ->
  column_indices n groups = Raise IndexError.
Proof.
  intros Hin Hbad. induction groups as [| a gs IH]; [destruct Hin |].
  simpl. unfold column_index at 1.
  destruct ((0 <=? a)%Z && (a <? Z.of_nat n)%Z) eqn:E1; simpl.
  - destruct Hin as [-> | Hin].
    + apply andb_prop in E1. lia.
    + now rewrite (IH Hin).
  - destruct ((- Z.of_nat n <=? a)%Z && (a <? 0)%Z) eqn:E2; simpl;
      [| reflexivity].
    destruct Hin as [-> | Hin].
    + apply andb_prop in E2. lia.
    + now rewrite (IH Hin).
Qed.

Lemma column_indices_raises (n : nat) (groups : list Z) (e : error) :
  column_indices n groups = Raise e -> e = IndexError.
Proof.
  induction groups as [| a l IH]; simpl; intros H; [discriminate |].
  destruct (column_index n a) as [i | e'] eqn:Ea; simpl in H.
  - destruct (column_indices n l) as [is_ | e'']; simpl in H;
      [discriminate |].
    apply IH. congruence.
  - unfold column_index in Ea.
    destruct ((0 <=? a)%Z && (a <? Z.of_nat n)%Z); [discriminate |].
    destruct ((- Z.of_nat n <=? a)%Z && (a <? 0)%Z); [discriminate |].
    congruence.
Qed.

End GroupSum.

(** X10: the labels index the columns of an identity matrix of the size of the
    number of distinct labels: a label outside [-M, M) (for instance
    labels numbered from one) is an index error. *)
Theorem group_sum_label_out_of_range (groups : list Z) (data : matrix)
  (g : Z) :
  In g groups ->
  (g < - Z.of_nat (n_unique groups) \/ Z.of_nat (n_unique groups) <= g)%Z ->
  _group_sum groups data = Raise IndexError.
Proof.
  intros Hin Hbad. unfold _group_sum.
  now rewrite (column_indices_error _ _ Hin Hbad).
Qed.

Lemma group_sum_label_out_of_range_witness :
  _group_sum [1%Z; 2%Z; 1%Z] (ones_matrix 3 1) = Raise IndexError.
Proof.
  apply (@group_sum_label_out_of_range [1%Z; 2%Z; 1%Z] (ones_matrix 3 1) 2%Z).
  - simpl. auto.
  - right. vm_compute. discriminate.
Defined.

(** ** More on the covariance estimator *)

(** X11: the stored covariance matrix is replaced only by a successful
    computation that was asked to store its result; every error leaves it
    as it was. *)
Theorem covariance_matrix_stored (I : Information)
  (fit_icpt self_robust self_expected_information : bool)
  (n_features_in_ : nat) (fam : family) (lnk : link)
  (stored : option matrix) (X : tabmat) (y sample_weight : list Q)
  (offset mu : option (list Q)) (disp : option Q)
  (robust expected_information : option bool) (clusters : option (list Z))
  (store_covariance_matrix : bool) :
  let r := covariance_matrix fit_icpt self_robust self_expected_information
             n_features_in_ fam lnk stored X y sample_weight offset mu disp
             robust expected_information clusters store_covariance_matrix in
  (forall e, snd r = Raise e -> fst r = stored) /\
  (forall vcov, snd r = Ok vcov ->
     fst r = if store_covariance_matrix then Some vcov else stored).
Proof.
  intros r. subst r. unfold covariance_matrix.
  destruct (cond_gt _ _); [split; [reflexivity | discriminate] |].
  match goal with
  | |- context [match ?c with Ok _ => _ | Raise _ => _ end] =>
      destruct c as [v | e']
  end; simpl; split; try discriminate; try reflexivity.
  intros vcov E. injection E as <-. reflexivity.
Qed.

(** X12: with a single cluster the clustered estimator never returns a
    matrix: [M / (M - 1)] divides by zero unless an earlier step has
    already failed; the stored matrix is left as it was. *)
Theorem covariance_matrix_single_cluster (I : Information)
  (fit_icpt self_robust self_expected_information : bool)
  (n_features_in_ : nat) (fam : family) (lnk : link)
  (stored : option matrix) (X : tabmat) (y sample_weight : list Q)
  (offset mu : option (list Q)) (disp : option Q)
  (robust expected_information : option bool) (c : list Z)
  (store_covariance_matrix : bool) :
  n_unique c = 1%nat ->
  exists e,
    covariance_matrix fit_icpt self_robust self_expected_information
      n_features_in_ fam lnk stored X y sample_weight offset mu disp
      robust expected_information (Some c) store_covariance_matrix
    = (stored, Raise e) /\
    (e = LinAlgError \/ e = IndexError \/ e = ValueError
     \/ e = ZeroDivisionError).
Proof.
  intros Hone. unfold covariance_matrix.
  destruct (cond_gt _ _); [exists LinAlgError; auto |].
  rewrite orb_true_r. unfold clustered_correction. rewrite Hone. simpl.
  unfold _group_sum. rewrite Hone.
  destruct (column_indices 1 c) as [cols |] eqn:Ec; simpl.
  - match goal with
    | |- context [if ?b then Raise ValueError else _] => destruct b
    end; simpl; [exists ValueError; auto | exists ZeroDivisionError; auto].
  - exists e. split; [reflexivity |].
    right. left. exact (column_indices_raises _ _ Ec).
Qed.

Lemma covariance_matrix_single_cluster_witness :
  @covariance_matrix sample_information false true false 1
    NormalDistribution IdentityLink None (ones_design 4)
    [1%Q; 1%Q; 1%Q; 1%Q] [1%Q; 1%Q; 1%Q; 1%Q] None None None
    None None (Some [0%Z; 0%Z; 0%Z; 0%Z]) false
  = (None, Raise ZeroDivisionError).
Proof.
  destruct (@covariance_matrix_single_cluster sample_information false true
              false 1 NormalDistribution IdentityLink None (ones_design 4)
              [1%Q; 1%Q; 1%Q; 1%Q] [1%Q; 1%Q; 1%Q; 1%Q] None None None
              None None [0%Z; 0%Z; 0%Z; 0%Z] false) as [e [He _]].
  - reflexivity.
  - reflexivity.
Defined.

Lemma covariance_matrix_stored_witness :
  fst (@covariance_matrix sample_information false true false 1
         NormalDistribution IdentityLink None (zero_design 4)
         [1%Q; 1%Q; 1%Q; 1%Q] [1%Q; 1%Q; 1%Q; 1%Q] None None None
         None None None true) = None.
Proof.
  apply (proj1 (@covariance_matrix_stored sample_information false true
                  false 1 NormalDistribution IdentityLink None
                  (zero_design 4) [1%Q; 1%Q; 1%Q; 1%Q]
                  [1%Q; 1%Q; 1%Q; 1%Q] None None None None None None true)
               LinAlgError).
  reflexivity.
Defined.

(** ** Looking up a penalty in the path *)

Section FindAlpha.

Lemma count_true_zero (l : list bool) :
  count_true l = 0%nat <-> forall j, (j < List.length l)%nat -> nth j l false = false.
Proof.
  induction l as [| b l IH]; simpl.
  - split; [intros _ j Hj; lia | reflexivity].
  - destruct b; simpl.
    + split; [discriminate |]. intros H. specialize (H 0%nat). simpl in H.
      assert (true = false) by (apply H; lia). discriminate.
    + rewrite IH. split.
      * intros H [| j] Hj; [reflexivity | apply H; lia].
      * intros H j Hj. apply (H (S j)). lia.
Qed.

(** Exactly one entry is true: [argmax_bool] is its index. *)
Lemma count_true_one (l : list bool) (i : nat) :
  count_true l = 1%nat /\ argmax_bool l = i <->
  (i < List.length l)%nat /\ nth i l false = true /\
  forall j, (j < List.length l)%nat -> nth j l false = true -> j = i.
Proof.
  revert i. induction l as [| b l IH]; intros i; simpl.
  - split; [intros [H _]; discriminate | intros [H _]; lia].
  - destruct b; simpl.
    + split.
      * intros [Hc <-]. injection Hc as Hc.
        split; [lia |]. split; [reflexivity |].
        intros [| j] Hj Hn; [reflexivity |].
        apply count_true_zero with (j := j) in Hc; [congruence | lia].
      * intros [Hi [Hn Hu]].
        assert (i = 0%nat) by (symmetry; apply (Hu 0%nat); [lia | reflexivity]).
        subst i. split; [| reflexivity]. f_equal.
        apply count_true_zero. intros j Hj.
        destruct (nth j l false) eqn:E; [| reflexivity].
        specialize (Hu (S j)). simpl in Hu.
        assert (S j = 0)%nat by (apply Hu; [lia | exact E]). discriminate.
    + split.
      * intros [Hc Ha]. rewrite Hc in Ha. simpl in Ha.
        destruct i as [| i]; [discriminate |]. injection Ha as Ha.
        destruct (proj1 (IH i) (conj Hc Ha)) as [Hi [Hn Hu]].
        split; [lia |]. split; [exact Hn |].
        intros [| j] Hj Hj'; [discriminate |].
        f_equal. apply Hu; [lia | exact Hj'].
      * intros [Hi [Hn Hu]].
        destruct i as [| i]; [discriminate |].
        destruct (proj2 (IH i)) as [Hc Ha].
        { split; [lia |]. split; [exact Hn |].
          intros j Hj Hj'. specialize (Hu (S j)). simpl in Hu.
          assert (S j = S i) by (apply Hu; [lia | exact Hj']). lia. }
        rewrite Hc. simpl. split; [reflexivity | now rewrite Ha].
Qed.

Lemma nth_map_isclose (alphas : list Q) (a : Q) (j : nat) :
  nth j (map (fun x => isclose x a) alphas) false
  = if Nat.ltb j (List.length alphas) then isclose (nth j alphas 0%Q) a
    else false.
Proof.
  revert j. induction alphas as [| x l IH]; intros [| j]; simpl;
    try reflexivity.
  rewrite IH. reflexivity.
Qed.

Lemma isclose_refl (a : Q) : isclose a a = true.
Proof.
  unfold isclose. apply Qle_bool_iff.
  assert (E : (Qabs (a - a) == 0)%Q).
  { setoid_replace (a - a)%Q with 0%Q by ring. reflexivity. }
  rewrite E.
  assert (0 <= Qabs a)%Q by apply Qabs_nonneg. Lqa.lra.
Qed.

End FindAlpha.

(** The index that is found is the only close position. *)
Lemma find_alpha_index_iff (alphas : list Q) (a : Q) (i : nat) :
  _find_alpha_index true alphas (Some a) = Ok (Some i) <->
  (i < List.length alphas)%nat /\
  isclose (nth i alphas 0%Q) a = true /\
  forall j, (j < List.length alphas)%nat ->
            isclose (nth j alphas 0%Q) a = true -> j = i.
Proof.
  set (close := map (fun x => isclose x a) alphas).
  assert (Hlen : List.length close = List.length alphas)
    by (subst close; apply length_map).
  assert (Hnth : forall j, (j < List.length alphas)%nat ->
             nth j close false = isclose (nth j alphas 0%Q) a).
  { intros j Hj. subst close. rewrite nth_map_isclose.
    apply Nat.ltb_lt in Hj. now rewrite Hj. }
  unfold _find_alpha_index. simpl. fold close. split.
  - intros H.
    destruct (Nat.eqb_spec (count_true close) 1) as [Hc | Hc];
      [| discriminate].
    injection H as Ha.
    destruct (proj1 (count_true_one close i) (conj Hc Ha))
      as [Hi [Hn Hu]].
    rewrite Hlen in Hi, Hu. split; [exact Hi |].
    split; [now rewrite <- Hnth |].
    intros j Hj Hj'. apply Hu; [exact Hj | now rewrite Hnth].
  - intros [Hi [Hn Hu]].
    destruct (proj2 (count_true_one close i)) as [Hc Ha].
    { rewrite Hlen. split; [exact Hi |]. split; [now rewrite Hnth |].
      intros j Hj Hj'. apply Hu; [exact Hj | now rewrite <- Hnth]. }
    rewrite Hc. simpl. now rewrite Ha.
Qed.

(** X13: with path search on, [_find_alpha_index] returns an index exactly
    when it is the one and only position of the path whose penalty is
    close to the requested one; otherwise (no such position, or several)
    it raises an index error.  Without path search every request for a
    penalty is a validation error, and no request gives no index. *)
Theorem find_alpha_index_unique (alphas : list Q) (a : Q) (i : nat) :
  (_find_alpha_index true alphas (Some a) = Ok (Some i) <->
   (i < List.length alphas)%nat /\
   isclose (nth i alphas 0%Q) a = true /\
   forall j, (j < List.length alphas)%nat ->
             isclose (nth j alphas 0%Q) a = true -> j = i) /\
  ((forall k, _find_alpha_index true alphas (Some a) <> Ok (Some k)) ->
   _find_alpha_index true alphas (Some a) = Raise IndexError) /\
  _find_alpha_index false alphas (Some a) = Raise ValueError /\
  (forall s, _find_alpha_index s alphas None = Ok None).
Proof.
  split; [apply find_alpha_index_iff |]. split; [| split].
  - intros Hno. unfold _find_alpha_index in *. simpl in *.
    destruct (Nat.eqb (count_true (map (fun x => isclose x a) alphas)) 1);
      [| reflexivity].
    exfalso. now apply (Hno (argmax_bool (map (fun x => isclose x a) alphas))).
  - reflexivity.
  - reflexivity.
Qed.

Lemma find_alpha_index_unique_witness :
  _find_alpha_index true [10%Q; 1%Q; (1 # 10)%Q] (Some 1%Q) = Ok (Some 1%nat).
Proof.
  apply (proj1 (@find_alpha_index_unique [10%Q; 1%Q; (1 # 10)%Q] 1%Q 1%nat)).
  split; [simpl; lia |]. split; [reflexivity |].
  intros [| [| [| j]]] Hj Hc; simpl in *; try reflexivity; try discriminate.
  lia.
Defined.



(** ** Start coefficients and bounds *)

Section StartCoef.

Open Scope Q_scope.

Lemma Qmin2_le_r (a b : Q) : Qmin2 a b <= b.
Proof.
  unfold Qmin2. destruct (Qle_bool a b) eqn:E.
  - now apply Qle_bool_iff.
  - apply Qle_refl.
Qed.

(** A successful clip keeps the length of the slice. *)
Lemma clip_to_bound_length (violates : Q -> Q -> bool) (pick : Q -> Q -> Q)
  (tail bound t : list Q) :
  clip_to_bound violates pick tail bound = Ok t ->
  List.length t = List.length tail.
Proof.
  unfold clip_to_bound. destruct (broadcast_pairs tail bound) as [ps |];
    simpl; [| discriminate].
  destruct (existsb _ ps).
  - destruct (Nat.eqb_spec (List.length (map (fun cb => pick (fst cb) (snd cb)) ps))
                           (List.length tail)) as [E | E]; [| discriminate].
    intros H. injection H as <-. exact E.
  - intros H. now injection H as <-.
Qed.

(** With a bound as long as the slice, every entry is either picked
    against its bound or left alone because nothing violated a bound. *)
Lemma clip_to_bound_entries (violates : Q -> Q -> bool) (pick : Q -> Q -> Q)
  (tail bound t : list Q) :
  List.length tail = List.length bound ->
  clip_to_bound violates pick tail bound = Ok t ->
  forall j, (j < List.length tail)%nat ->
    nth j t 0 = pick (nth j tail 0) (nth j bound 0)
    \/ (nth j t 0 = nth j tail 0
        /\ violates (nth j tail 0) (nth j bound 0) = false).
Proof.
  intros Hlen. unfold clip_to_bound, broadcast_pairs.
  apply Nat.eqb_eq in Hlen. rewrite Hlen. apply Nat.eqb_eq in Hlen. simpl.
  destruct (existsb _ (combine tail bound)) eqn:Ex.
  - rewrite length_map, length_combine, <- Hlen, Nat.min_id, Nat.eqb_refl.
    intros H j Hj. injection H as <-. left.
    rewrite (nth_indep _ 0 (pick (fst (0, 0)) (snd (0, 0))))
      by (rewrite length_map, length_combine, <- Hlen, Nat.min_id; exact Hj).
    rewrite (map_nth (fun cb => pick (fst cb) (snd cb))).
    now rewrite combine_nth.
  - intros H j Hj. injection H as <-. right. split; [reflexivity |].
    destruct (violates (nth j tail 0) (nth j bound 0)) eqn:V; [| reflexivity].
    assert (Hex : existsb (fun cb => violates (fst cb) (snd cb))
                          (combine tail bound) = true).
    { apply existsb_exists. exists (nth j tail 0, nth j bound 0).
      split; [| exact V].
      rewrite <- combine_nth by exact Hlen.
      apply nth_In. rewrite length_combine, <- Hlen, Nat.min_id. exact Hj. }
    congruence.
Qed.

Lemma clip_lower_entries (tail lb t : list Q) :
  List.length tail = List.length lb ->
  clip_lower tail lb = Ok t ->
  forall j, (j < List.length tail)%nat ->
    nth j lb 0 <= nth j t 0 /\ nth j tail 0 <= nth j t 0
    /\ (nth j t 0 = nth j tail 0 \/ nth j t 0 = nth j lb 0).
Proof.
  intros Hlen H j Hj.
  destruct (clip_to_bound_entries _ _ _ _ Hlen H Hj) as [E | [E V]];
    rewrite E.
  - split; [apply Qmax2_ge_r |]. split; [apply Qmax2_ge_l |].
    destruct (Qmax2_cases (nth j tail 0) (nth j lb 0)); auto.
  - split; [| split; [apply Qle_refl | now left]].
    destruct (Qlt_le_dec (nth j tail 0) (nth j lb 0)) as [Hlt | Hle];
      [| exact Hle].
    apply Qlt_bool_iff in Hlt. congruence.
Qed.

Lemma clip_upper_entries (tail ub t : list Q) :
  List.length tail = List.length ub ->
  clip_upper tail ub = Ok t ->
  forall j, (j < List.length tail)%nat ->
    nth j t 0 <= nth j ub 0
    /\ (nth j t 0 = nth j tail 0 \/ nth j t 0 = nth j ub 0).
Proof.
  intros Hlen H j Hj.
  destruct (clip_to_bound_entries _ _ _ _ Hlen H Hj) as [E | [E V]];
    rewrite E.
  - split; [apply Qmin2_le_r |].
    unfold Qmin2. destruct (Qle_bool _ _); auto.
  - split; [| now left].
    destruct (Qlt_le_dec (nth j ub 0) (nth j tail 0)) as [Hlt | Hle];
      [| exact Hle].
    apply Qlt_bool_iff in Hlt. congruence.
Qed.

End StartCoef.

(** What a successful [_get_start_coef] is made of. *)
Lemma get_start_coef_ok (H : StartHelpers) (p : params) (o : start_options)
  (st st' : fit_state) (X : tabmat) (y sw : list Q)
  (offset : option (list Q)) (cm : list Q) (cs : option (list Q))
  (c : list Q) :
  _get_start_coef p o st X y sw offset cm cs = (st', Ok c) ->
  exists coef0 aliased t1 t2,
    initial_start_coef p o st X y sw offset cm cs = Ok (coef0, aliased) /\
    match lower_bounds p with
    | None => t1 = skipn (if fit_intercept p then 1 else 0) coef0
    | Some lb =>
        clip_lower (skipn (if fit_intercept p then 1 else 0) coef0) lb = Ok t1
    end /\
    match upper_bounds p with
    | None => t2 = t1
    | Some ub => clip_upper t1 ub = Ok t2
    end /\
    c = firstn (if fit_intercept p then 1 else 0) coef0 ++ t2 /\
    st' = if aliased then set_coef_ st c else st.
Proof.
  unfold _get_start_coef. intros E.
  destruct (initial_start_coef p o st X y sw offset cm cs)
    as [[coef0 aliased] | e]; [| discriminate].
  exists coef0, aliased.
  destruct (lower_bounds p) as [lb |].
  - destruct (clip_lower _ lb) as [t1 | e] eqn:E1; [| discriminate].
    exists t1. destruct (upper_bounds p) as [ub |].
    + destruct (clip_upper t1 ub) as [t2 | e] eqn:E2; [| discriminate].
      exists t2. injection E as <- <-. auto.
    + exists t1. injection E as <- <-. auto.
  - exists (skipn (if fit_intercept p then 1 else 0)%nat coef0).
    destruct (upper_bounds p) as [ub |].
    + destruct (clip_upper _ ub) as [t2 | e] eqn:E2; [| discriminate].
      exists t2. injection E as <- <-. auto.
    + eexists. injection E as <- <-. auto.
Qed.

(** X15: the start coefficients respect the bounds: with bounds that have one
    entry per feature, every feature coefficient returned is at most its
    upper bound, and at least its lower bound when no upper bound is set
    or the lower bound does not exceed the upper one. *)
Theorem start_coef_within_bounds (H : StartHelpers) (p : params)
  (o : start_options) (st st' : fit_state) (X : tabmat) (y sw : list Q)
  (offset : option (list Q)) (cm : list Q) (cs : option (list Q))
  (c : list Q) :
  _get_start_coef p o st X y sw offset cm cs = (st', Ok c) ->
  let idx := if fit_intercept p then 1%nat else 0%nat in
  (forall ub, upper_bounds p = Some ub ->
     List.length ub = (List.length c - idx)%nat ->
     forall j, (j < List.length ub)%nat ->
       (nth (idx + j) c 0 <= nth j ub 0)%Q) /\
  (forall lb, lower_bounds p = Some lb ->
     List.length lb = (List.length c - idx)%nat ->
     (upper_bounds p = None \/
      exists ub, upper_bounds p = Some ub /\
                 List.length ub = List.length lb /\
                 forall j, (nth j lb 0 <= nth j ub 0)%Q) ->
     forall j, (j < List.length lb)%nat ->
       (nth j lb 0 <= nth (idx + j) c 0)%Q).
Proof.
  intros E idx.
  destruct (get_start_coef_ok _ _ _ _ _ _ _ _ _ _ E)
    as [coef0 [aliased [t1 [t2 [_ [H1 [H2 [Hc _]]]]]]]].
  fold idx in H1, Hc.
  assert (Ht1 : List.length t1 = List.length (skipn idx coef0)).
  { destruct (lower_bounds p); [| now subst t1].
    now apply clip_to_bound_length in H1. }
  assert (Ht2 : List.length t2 = List.length t1).
  { destruct (upper_bounds p); [| now subst t2].
    now apply clip_to_bound_length in H2. }
  assert (Hlc : (List.length c - idx = List.length t2
                 /\ (0 < List.length t2 ->
                     List.length (firstn idx coef0) = idx))%nat).
  { rewrite Hc, length_app, length_firstn, Ht2, Ht1, length_skipn. lia. }
  destruct Hlc as [Hlc Hhead].
  assert (Hnth : forall j, (j < List.length t2)%nat ->
             nth (idx + j) c 0%Q = nth j t2 0%Q).
  { intros j Hj. rewrite Hc, app_nth2 by lia. f_equal. lia. }
  split.
  - intros ub Hub Hlen j Hj. rewrite Hub in H2.
    rewrite Hnth by lia.
    apply (clip_upper_entries t1 ub); [lia | exact H2 | lia].
  - intros lb Hlb Hlen Hup j Hj. rewrite Hlb in H1.
    rewrite Hnth by lia.
    assert (Hl1 : (nth j lb 0 <= nth j t1 0)%Q).
    { apply (clip_lower_entries (skipn idx coef0) lb); [lia | exact H1 | lia]. }
    destruct Hup as [Hup | [ub [Hup [Hul Hle]]]]; rewrite Hup in H2.
    + now subst t2.
    + destruct (clip_upper_entries t1 ub) with (t := t2) (j := j)
        as [_ [E2 | E2]]; try lia; try exact H2; rewrite E2.
      * exact Hl1.
      * apply Hle.
Qed.

(** X16: clipping a warm start without an intercept writes into the stored
    coefficients: after a successful call the estimator's [coef_] is the
    returned (clipped) vector.  In every other case, and on every error in
    the choice of the start vector, [coef_] is left as it was. *)
Theorem start_coef_aliases_warm_start (H : StartHelpers) (p : params)
  (o : start_options) (st st' : fit_state) (X : tabmat) (y sw : list Q)
  (offset : option (list Q)) (cm : list Q) (cs : option (list Q))
  (c : list Q) :
  _get_start_coef p o st X y sw offset cm cs = (st', Ok c) ->
  (warm_start o = true -> is_some (coef_ st) = true ->
   fit_intercept p = false -> coef_ st' = Some c) /\
  (warm_start o = false \/ coef_ st = None \/ fit_intercept p = true ->
   st' = st).
Proof.
  intros E.
  destruct (get_start_coef_ok _ _ _ _ _ _ _ _ _ _ E)
    as [coef0 [aliased [t1 [t2 [Hi [_ [_ [_ Hst]]]]]]]].
  unfold initial_start_coef in Hi. split.
  - intros Hw Hs Hf. rewrite Hw, Hs in Hi. simpl in Hi.
    destruct (coef_ st), (intercept_ st), (_center_predictors st);
      try discriminate.
    injection Hi as _ <-. rewrite Hf in Hst. simpl in Hst.
    subst st'. reflexivity.
  - intros Hcase.
    assert (Ha : aliased = false).
    { destruct (warm_start o && is_some (coef_ st)) eqn:Ew.
      - apply andb_prop in Ew. destruct Ew as [Ew Es].
        destruct Hcase as [Hc | [Hc | Hc]].
        + congruence.
        + rewrite Hc in Es. discriminate.
        + destruct (coef_ st), (intercept_ st), (_center_predictors st);
            try discriminate.
          injection Hi as _ <-. now rewrite Hc.
      - destruct (start_params o).
        + destruct (negb _); [discriminate |].
          destruct (_center_predictors st); [| discriminate].
          now injection Hi as _ <-.
        + destruct (fit_intercept p).
          * destruct (_link_instance st), (_family_instance st);
              try discriminate.
            now injection Hi as _ <-.
          * now injection Hi as _ <-. }
    now rewrite Ha in Hst.
Qed.

Lemma start_coef_within_bounds_witness :
  exists st' c,
    @_get_start_coef sample_start_helpers bounded_params
      {| warm_start := true; start_params := None |} warm_state sample_X
      [1%Q; 2%Q] [1%Q; 1%Q] None [0%Q; 0%Q] None = (st', Ok c) /\
    (nth 0 [0%Q; 0%Q] 0 <= nth (0 + 0) c 0)%Q /\
    (nth (0 + 1) c 0 <= nth 1 [1%Q; 1%Q] 0)%Q.
Proof.
  do 2 eexists. split; [reflexivity |].
  pose proof (@start_coef_within_bounds sample_start_helpers bounded_params
                {| warm_start := true; start_params := None |} warm_state
                _ sample_X [1%Q; 2%Q] [1%Q; 1%Q] None [0%Q; 0%Q] None
                _ eq_refl) as [Hub Hlb].
  split.
  - apply (Hlb [0%Q; 0%Q] eq_refl eq_refl); [| simpl; lia].
    right. exists [1%Q; 1%Q]. split; [reflexivity |].
    split; [reflexivity |].
    intros [| [| j]]; simpl; try discriminate. destruct j; discriminate.
  - apply (Hub [1%Q; 1%Q] eq_refl eq_refl). simpl. lia.
Defined.

Lemma start_coef_aliases_warm_start_witness :
  exists st',
    @_get_start_coef sample_start_helpers bounded_params
      {| warm_start := true; start_params := None |} warm_state sample_X
      [1%Q; 2%Q] [1%Q; 1%Q] None [0%Q; 0%Q] None
    = (st', Ok [0%Q; 1%Q]) /\
    coef_ st' = Some [0%Q; 1%Q].
Proof.
  eexists. split; [reflexivity |].
  apply (@start_coef_aliases_warm_start sample_start_helpers bounded_params
           {| warm_start := true; start_params := None |} warm_state _
           sample_X [1%Q; 2%Q] [1%Q; 1%Q] None [0%Q; 0%Q] None
           [0%Q; 1%Q] eq_refl); reflexivity.
Defined.

Lemma clip_to_bound_inside (violates : Q -> Q -> bool) (pick : Q -> Q -> Q)
  (tail bound : list Q) :
  List.length tail = List.length bound ->
  (forall j, (j < List.length tail)%nat ->
     violates (nth j tail 0%Q) (nth j bound 0%Q) = false) ->
  clip_to_bound violates pick tail bound = Ok tail.
Proof.
  intros Hlen Hin. unfold clip_to_bound, broadcast_pairs.
  apply Nat.eqb_eq in Hlen. rewrite Hlen. apply Nat.eqb_eq in Hlen. simpl.
  destruct (existsb _ (combine tail bound)) eqn:Ex; [| reflexivity].
  apply existsb_exists in Ex. destruct Ex as [[a b] [Hab V]].
  apply (In_nth _ _ (0%Q, 0%Q)) in Hab. destruct Hab as [j [Hj Ej]].
  rewrite length_combine, <- Hlen, Nat.min_id in Hj.
  rewrite combine_nth in Ej by exact Hlen. injection Ej as <- <-.
  simpl in V. rewrite (Hin j Hj) in V. discriminate.
Qed.

(** X17: A start vector whose feature part already lies within the bounds is
    returned as it is, whichever way it was chosen. *)
Theorem start_coef_inside_unchanged (H : StartHelpers) (p : params)
  (o : start_options) (st : fit_state) (X : tabmat) (y sw : list Q)
  (offset : option (list Q)) (cm : list Q) (cs : option (list Q))
  (coef0 : list Q) (aliased : bool) :
  let idx := if fit_intercept p then 1%nat else 0%nat in
  initial_start_coef p o st X y sw offset cm cs = Ok (coef0, aliased) ->
  (forall lb, lower_bounds p = Some lb ->
     List.length lb = List.length (skipn idx coef0) /\
     forall j, (nth j lb 0 <= nth j (skipn idx coef0) 0)%Q) ->
  (forall ub, upper_bounds p = Some ub ->
     List.length ub = List.length (skipn idx coef0) /\
     forall j, (nth j (skipn idx coef0) 0 <= nth j ub 0)%Q) ->
  snd (_get_start_coef p o st X y sw offset cm cs) = Ok coef0.
Proof.
  intros idx Hi Hlb Hub. unfold _get_start_coef. rewrite Hi. fold idx.
  assert (Hl : match lower_bounds p with
               | None => Ok (skipn idx coef0)
               | Some lb => clip_lower (skipn idx coef0) lb
               end = Ok (skipn idx coef0)).
  { destruct (lower_bounds p) as [lb |]; [| reflexivity].
    destruct (Hlb lb eq_refl) as [Hlen Hle].
    apply clip_to_bound_inside; [now symmetry |].
    intros j _. destruct (Qlt_bool _ _) eqn:V; [| reflexivity].
    apply Qlt_bool_iff in V. exfalso. exact (Qlt_not_le _ _ V (Hle j)). }
  rewrite Hl.
  assert (Hu : match upper_bounds p with
               | None => Ok (skipn idx coef0)
               | Some ub => clip_upper (skipn idx coef0) ub
               end = Ok (skipn idx coef0)).
  { destruct (upper_bounds p) as [ub |]; [| reflexivity].
    destruct (Hub ub eq_refl) as [Hlen Hle].
    apply clip_to_bound_inside; [now symmetry |].
    intros j _. destruct (Qlt_bool _ _) eqn:V; [| reflexivity].
    apply Qlt_bool_iff in V. exfalso. exact (Qlt_not_le _ _ V (Hle j)). }
  rewrite Hu. simpl. now rewrite firstn_skipn.
Qed.

Lemma start_coef_inside_unchanged_witness :
  snd (@_get_start_coef sample_start_helpers bounded_params
         {| warm_start := false; start_params := Some [(1 # 2)%Q; 1%Q] |}
         warm_state sample_X [1%Q; 2%Q] [1%Q; 1%Q] None [0%Q; 0%Q] None)
  = Ok [(1 # 2)%Q; 1%Q].
Proof.
  apply (@start_coef_inside_unchanged sample_start_helpers bounded_params
           {| warm_start := false; start_params := Some [(1 # 2)%Q; 1%Q] |}
           warm_state sample_X [1%Q; 2%Q] [1%Q; 1%Q] None [0%Q; 0%Q] None
           [(1 # 2)%Q; 1%Q] false).
  - reflexivity.
  - intros lb E. injection E as <-. split; [reflexivity |].
    intros [| [| j]]; simpl; try discriminate. destruct j; discriminate.
  - intros ub E. injection E as <-. split; [reflexivity |].
    intros [| [| j]]; simpl; try discriminate. destruct j; discriminate.
Defined.

(** ** Validated hyperparameters and the solver *)

Lemma in_strings_cases (s : string) (l : list string) :
  in_strings s l = true -> In s l.
Proof.
  unfold in_strings. intros H. apply existsb_exists in H.
  destruct H as [x [Hx E]]. apply String.eqb_eq in E. now subst.
Qed.

(** X18: for hyperparameters that pass the validation, the solver chosen by
    the set-up is one of the four solvers that [_solve] knows; bounds make
    it coordinate descent, inequality constraints (then given in full and
    without bounds) make it the trust-region solver, the iteration limit
    is positive, and [_solve] runs a solver. *)
Theorem validated_solver (S : Solvers) (h : hyperparams) :
  _validate_hyperparameters h = Ok tt ->
  let p := hp h in
  In (select_solver p) known_solvers /\
  (is_some (lower_bounds p) || is_some (upper_bounds p) = true ->
   select_solver p = "irls-cd"%string) /\
  (is_some (A_ineq p) || is_some (b_ineq p) = true ->
   select_solver p = "trust-constr"%string /\
   is_some (A_ineq p) = true /\ is_some (b_ineq p) = true /\
   lower_bounds p = None /\ upper_bounds p = None) /\
  (0 < max_iter p)%nat /\
  forall fam lnk gtol X y sw P1 coef offset lower upper A b,
    snd (_solve p fam lnk (select_solver p) gtol X y sw P1 coef
                offset lower upper A b) <> None.
Proof.
  intros Hv p. unfold _validate_hyperparameters in Hv. fold p in Hv.
  destruct (String.eqb (solver p) "newton-cg"); [discriminate |].
  destruct (in_strings (solver p) _) eqn:Hs; simpl in Hv; [| discriminate].
  destruct (Nat.leb_spec (max_iter p) 0) as [| Hmi]; [discriminate |].
  destruct (not_positive (gradient_tol p)); [discriminate |].
  destruct (not_positive (step_size_tol p)); [discriminate |].
  destruct (in_strings (selection h) _); simpl in Hv; [| discriminate].
  destruct (scale_predictors h && negb (fit_intercept p)); [discriminate |].
  destruct (is_some (lower_bounds p) || is_some (upper_bounds p)) eqn:Hb;
    destruct (is_some (A_ineq p) || is_some (b_ineq p)) eqn:Hi;
    simpl in Hv.
  - destruct (in_strings (solver p) ["auto"; "irls-cd"]%string);
      simpl in Hv; [| discriminate].
    destruct (in_strings (solver p) ["auto"; "trust-constr"]%string);
      simpl in Hv; discriminate.
  - destruct (in_strings (solver p) ["auto"; "irls-cd"]%string) eqn:Hcd;
      simpl in Hv; [| discriminate].
    assert (HA : A_ineq p = None /\ b_ineq p = None).
    { destruct (A_ineq p), (b_ineq p); try discriminate. auto. }
    destruct HA as [HA HB].
    assert (Hsel : select_solver p = "irls-cd"%string).
    { unfold select_solver. rewrite HA, HB. simpl.
      apply in_strings_cases in Hcd. destruct Hcd as [<- | [<- | []]].
      - simpl. unfold is_none.
        destruct (lower_bounds p), (upper_bounds p); try discriminate;
          reflexivity.
      - reflexivity. }
    rewrite Hsel. repeat split; try discriminate; auto.
    + simpl. auto.
    + intros. unfold _solve. simpl.
      destruct (solve_limits _ _ _ _ _).
      destruct (_irls_solver _ _ _). simpl. discriminate.
  - destruct (in_strings (solver p) ["auto"; "trust-constr"]%string) eqn:Htc;
      simpl in Hv; [| discriminate].
    assert (HL : lower_bounds p = None /\ upper_bounds p = None).
    { destruct (lower_bounds p), (upper_bounds p); try discriminate. auto. }
    destruct HL as [HL HU].
    assert (HAB : is_some (A_ineq p) = true /\ is_some (b_ineq p) = true).
    { unfold is_none in Hv.
      destruct (A_ineq p), (b_ineq p); simpl in *; try discriminate; auto. }
    destruct HAB as [HA HB].
    assert (Hsel : select_solver p = "trust-constr"%string).
    { unfold select_solver. rewrite HA, HB. simpl.
      apply in_strings_cases in Htc. destruct Htc as [<- | [<- | []]];
        reflexivity. }
    rewrite Hsel. repeat split; try discriminate; auto.
    + simpl. auto.
    + intros. unfold _solve. simpl.
      destruct (solve_limits _ _ _ _ _).
      destruct (_trust_constr_solver _ _ _ _ _ _ _ _ _ _ _ _). simpl.
      discriminate.
  - assert (HL : lower_bounds p = None /\ upper_bounds p = None).
    { destruct (lower_bounds p), (upper_bounds p); try discriminate. auto. }
    assert (HA : A_ineq p = None /\ b_ineq p = None).
    { destruct (A_ineq p), (b_ineq p); try discriminate. auto. }
    destruct HL as [HL HU]. destruct HA as [HA HB].
    assert (Hsel : select_solver p = "irls-ls"%string
                   \/ select_solver p = "irls-cd"%string
                   \/ select_solver p = "lbfgs"%string
                   \/ select_solver p = "trust-constr"%string).
    { unfold select_solver. rewrite HA, HB, HL, HU. simpl.
      apply in_strings_cases in Hs.
      destruct Hs as [<- | [<- | [<- | [<- | [<- | []]]]]]; simpl; auto.
      destruct (np_all_zero (l1_ratio p)); auto.
      destruct (alpha_is_zero p && negb (alpha_search p)); auto. }
    repeat split; try discriminate; auto.
    + unfold known_solvers. simpl.
      destruct Hsel as [-> | [-> | [-> | ->]]]; auto.
    + intros. unfold _solve.
      destruct Hsel as [-> | [-> | [-> | ->]]]; simpl;
        destruct (solve_limits _ _ _ _ _);
        repeat match goal with
               | |- context [let '(_, _) := ?x in _] => destruct x
               end; simpl; discriminate.
Qed.

Lemma validated_solver_witness :
  _validate_hyperparameters bounded_hyperparams = Ok tt /\
  select_solver (hp bounded_hyperparams) = "irls-cd"%string.
Proof.
  split; [reflexivity |].
  apply (@validated_solver sample_solvers bounded_hyperparams eq_refl).
  reflexivity.
Defined.

(** ** When the set-up succeeds *)

(** X19: [_set_up_for_fit] succeeds exactly when the family and the link
    resolve and, with input checking on, every response lies in the range
    of the family; it then records the family, the link, the number of
    observations, the chosen solver and the gradient tolerance (the given
    one, else [1e-8] for the trust-region solver and [1e-4] otherwise)
    and leaves the coefficients alone.  With input checking off the
    response is never looked at. *)
Theorem set_up_succeeds_iff (D : Distributions) (p : params)
  (st : fit_state) (y : list Q) :
  (snd (_set_up_for_fit p st y) = Ok tt <->
   exists fam lnk,
     get_family (family_ p) = Ok fam /\
     get_link (link_ p) fam = Ok lnk /\
     (check_input p = false \/ forallb (in_y_range fam) y = true)) /\
  (forall fam lnk,
     get_family (family_ p) = Ok fam ->
     get_link (link_ p) fam = Ok lnk ->
     let st' := fst (_set_up_for_fit p st y) in
     _family_instance st' = Some fam /\
     _link_instance st' = Some lnk /\
     _center_predictors st' = Some (fit_intercept p) /\
     _num_obs st' = Some (List.length y) /\
     _solver st' = Some (select_solver p) /\
     _gradient_tol st'
     = Some (match gradient_tol p with
             | Some t => t
             | None =>
                 if String.eqb (select_solver p) "trust-constr"
                 then (1 # 100000000)%Q else (1 # 10000)%Q
             end) /\
     coef_ st' = coef_ st /\ intercept_ st' = intercept_ st).
Proof.
  split.
  - unfold _set_up_for_fit. split.
    + intros H.
      destruct (get_family (family_ p)) as [fam | e]; [| discriminate].
      destruct (get_link (link_ p) fam) as [lnk | e] eqn:Hl; [| discriminate].
      exists fam, lnk. split; [reflexivity |]. split; [exact Hl |].
      destruct (check_input p); [| now left]. right.
      destruct (forallb (in_y_range fam) y); [reflexivity | discriminate].
    + intros [fam [lnk [Hf [Hl Hc]]]]. rewrite Hf, Hl.
      destruct Hc as [-> | ->]; [reflexivity |].
      now rewrite andb_false_r.
  - intros fam lnk Hf Hl. unfold _set_up_for_fit. rewrite Hf, Hl.
    destruct (check_input p && negb (forallb (in_y_range fam) y)); simpl;
      repeat split.
Qed.

Lemma set_up_succeeds_iff_witness :
  snd (@_set_up_for_fit sample_distributions sample_params empty_state
         [1%Q; 0%Q; 2%Q]) = Ok tt.
Proof.
  apply (proj1 (@set_up_succeeds_iff sample_distributions sample_params
                  empty_state [1%Q; 0%Q; 2%Q])).
  exists PoissonDistribution, LogLink.
  split; [reflexivity |]. split; [reflexivity |]. right. reflexivity.
Defined.

(** ** The regularization path *)

Lemma solve_path_rows (solve : list Q -> p2_value -> list Q -> list Q)
  (n : nat) (P2 : p2_value) (P1 : list Q) :
  (forall q1 q2 c, List.length (solve q1 q2 c) = List.length c) ->
  forall alphas coef, List.length coef = n ->
  exists rows,
    solve_path solve n alphas P2 P1 coef = Ok rows /\
    List.length rows = List.length alphas /\
    forall k, (k < List.length alphas)%nat ->
      List.length (nth k rows []) = n /\
      nth k rows []
      = solve (map (fun x => (x * nth k alphas 0)%Q) P1)
              (p2_times P2 (nth k alphas 0%Q))
              (warm_start_of coef rows k).
Proof.
  intros Hlen. induction alphas as [| a rest IH]; intros coef Hc.
  - exists []. split; [reflexivity |]. split; [reflexivity |].
    intros k Hk. simpl in Hk. lia.
  - simpl.
    set (c' := solve (map (fun x => (x * a)%Q) P1) (p2_times P2 a) coef).
    assert (Hc' : List.length c' = n) by (subst c'; now rewrite Hlen).
    unfold assign_row. apply Nat.eqb_eq in Hc'. rewrite Hc'.
    apply Nat.eqb_eq in Hc'. simpl.
    destruct (IH c' Hc') as [rows [Hr [Hl Hk]]]. rewrite Hr. simpl.
    exists (c' :: rows). split; [reflexivity |].
    split; [simpl; now rewrite Hl |].
    intros [| k] Hlt; simpl.
    + split; [exact Hc' | reflexivity].
    + destruct (Hk k) as [H1 H2]; [simpl in Hlt; lia |].
      split; [exact H1 |]. rewrite H2. destruct k; reflexivity.
Qed.

(** X20: for a solver that returns as many coefficients as it is given, the
    path has one row per penalty, each as long as the start vector; row
    [k] is the solver's answer for the penalties [P1_no_alpha * alpha_k]
    and [P2_no_alpha * alpha_k], started from the start vector for the
    first penalty and from the previous row afterwards. *)
Theorem regularization_path_warm_starts
  (solve : list Q -> p2_value -> list Q -> list Q)
  (alphas : list Q) (P2 : p2_value) (P1 coef : list Q) :
  (forall q1 q2 c, List.length (solve q1 q2 c) = List.length c) ->
  exists rows,
    _solve_regularization_path solve alphas P2 P1 coef = Ok rows /\
    List.length rows = List.length alphas /\
    forall k, (k < List.length alphas)%nat ->
      List.length (nth k rows []) = List.length coef /\
      nth k rows []
      = solve (map (fun x => (x * nth k alphas 0)%Q) P1)
              (p2_times P2 (nth k alphas 0%Q))
              (warm_start_of coef rows k).
Proof.
  intros Hlen. unfold _solve_regularization_path.
  now apply solve_path_rows.
Qed.

Lemma regularization_path_warm_starts_witness :
  exists rows,
    _solve_regularization_path
      (fun q1 _ c => map (fun pc => (fst pc + snd pc)%Q)
                         (combine c (q1 ++ repeat 0%Q (List.length c))))
      [10%Q; 1%Q] (P2Dense1 [1%Q; 1%Q]) [1%Q; 2%Q] [0%Q; 0%Q] = Ok rows /\
    List.length rows = 2%nat.
Proof.
  destruct (@regularization_path_warm_starts
              (fun q1 _ c => map (fun pc => (fst pc + snd pc)%Q)
                                 (combine c (q1 ++ repeat 0%Q (List.length c))))
              [10%Q; 1%Q] (P2Dense1 [1%Q; 1%Q]) [1%Q; 2%Q] [0%Q; 0%Q])
    as [rows [Hr [Hl _]]].
  - intros q1 q2 c. rewrite length_map, length_combine, length_app,
      repeat_length. lia.
  - exists rows. split; [exact Hr | exact Hl].
Defined.

(** ** The linear predictor *)

Lemma map_result_ok {A B : Type} (g : A -> result B) (l : list A)
  (bs : list B) (d : A) (d' : B) :
  map_result g l = Ok bs ->
  List.length bs = List.length l /\
  forall k, (k < List.length l)%nat -> g (nth k l d) = Ok (nth k bs d').
Proof.
  revert bs. induction l as [| a l IH]; intros bs H; simpl in H.
  - injection H as <-. split; [reflexivity | simpl; intros; lia].
  - destruct (g a) as [b |] eqn:Ea; simpl in H; [| discriminate].
    destruct (map_result g l) as [bs' |]; simpl in H; [| discriminate].
    injection H as <-. destruct (IH bs' eq_refl) as [Hl Hk]. split.
    + simpl. now rewrite Hl.
    + intros [| k] Hlt; simpl; [exact Ea | apply Hk; simpl in Hlt; lia].
Qed.

(** X21: asking for a penalty by value is the same as asking for it by the
    index that [_find_alpha_index] gives; asking by value and by index at
    once is a validation error on a fitted estimator. *)
Theorem linear_predictor_alpha_lookup (f : fitted_path) (X : matrix)
  (offset : option (list Q)) :
  (forall a k,
     _find_alpha_index (fp_alpha_search f) (fp_alphas f) (Some a)
     = Ok (Some k) ->
     linear_predictor f X offset SelNone (SelOne a)
     = linear_predictor f X offset (SelOne (Z.of_nat k)) SelNone) /\
  (forall ai al, fp_coef f <> None -> ai <> SelNone -> al <> SelNone ->
     linear_predictor f X offset ai al = Raise ValueError).
Proof.
  split.
  - intros a k Hk. unfold linear_predictor, alpha_to_index.
    destruct (fp_coef f); [| reflexivity]. rewrite Hk. reflexivity.
  - intros ai al Hf Hi Ha. unfold linear_predictor.
    destruct (fp_coef f); [| congruence].
    destruct al, ai; try congruence; reflexivity.
Qed.

Lemma linear_predictor_alpha_lookup_witness :
  linear_predictor sample_fitted (mat sample_X) None SelNone (SelOne 1%Q)
  = linear_predictor sample_fitted (mat sample_X) None
      (SelOne (Z.of_nat 1)) SelNone.
Proof.
  apply (proj1 (@linear_predictor_alpha_lookup sample_fitted (mat sample_X)
                  None) 1%Q 1%nat).
  reflexivity.
Defined.

(** X22: A request for several indices returns one column per index, and each
    column is what a request for that index alone returns. *)
Theorem linear_predictor_stacks (f : fitted_path) (X : matrix)
  (offset : option (list Q)) (idxs : list Z) (cols : list (list Q)) :
  linear_predictor f X offset (SelMany idxs) SelNone = Ok (Pred2 cols) ->
  List.length cols = List.length idxs /\
  forall k, (k < List.length idxs)%nat ->
    linear_predictor f X offset (SelOne (nth k idxs 0%Z)) SelNone
    = Ok (Pred1 (nth k cols [])).
Proof.
  unfold linear_predictor. destruct (fp_coef f); [| discriminate]. simpl.
  destruct (negb (Nat.eqb (dim1 X) (fp_n_features_in f))); [discriminate |].
  destruct idxs as [| i0 idxs']; [discriminate |].
  set (idxs := i0 :: idxs').
  destruct (map_result (predict_raw f X) idxs) as [raw |] eqn:Er;
    [| simpl; discriminate].
  simpl bind at 1.
  destruct (map_result (fun c => add_offset c offset) raw) as [cs |] eqn:Ec;
    [| simpl; discriminate].
  cbn [bind]. intros E. injection E as <-.
  destruct (map_result_ok _ _ 0%Z [] Er) as [Hl1 Hk1].
  destruct (map_result_ok _ _ [] [] Ec) as [Hl2 Hk2].
  split; [now rewrite Hl2, Hl1 |].
  intros k Hk. unfold predict_at. rewrite (Hk1 k Hk). cbn [bind].
  rewrite Hk2 by (rewrite Hl1; exact Hk). reflexivity.
Qed.

Lemma linear_predictor_stacks_witness :
  exists cols,
    linear_predictor sample_fitted (mat sample_X) None
      (SelMany [0%Z; (-1)%Z]) SelNone = Ok (Pred2 cols) /\
    linear_predictor sample_fitted (mat sample_X) None
      (SelOne (nth 1 [0%Z; (-1)%Z] 0%Z)) SelNone
    = Ok (Pred1 (nth 1 cols [])).
Proof.
  eexists. split; [reflexivity |].
  apply (@linear_predictor_stacks sample_fitted (mat sample_X) None
           [0%Z; (-1)%Z] _ eq_refl).
  simpl. lia.
Defined.

(** ** Wald restrictions on named features *)

Section WaldFeatures.

Open Scope Q_scope.

Lemma list_index_some (s : string) (names : list string) (j : nat) :
  list_index s names = Some j ->
  (j < List.length names)%nat /\ nth j names ""%string = s /\
  forall k, (k < j)%nat -> nth k names ""%string <> s.
Proof.
  revert j. induction names as [| n ns IH]; intros j H; simpl in H;
    [discriminate |].
  destruct (String.eqb_spec n s) as [E | E].
  - injection H as <-. simpl. split; [lia |]. split; [exact E |].
    intros k Hk. lia.
  - destruct (list_index s ns) as [k |]; [| discriminate].
    injection H as <-. destruct (IH k eq_refl) as [Hk [Hn Hf]].
    simpl. split; [lia |]. split; [exact Hn |].
    intros [| k'] Hk'; simpl; [exact E | apply Hf; lia].
Qed.

Lemma list_index_none (s : string) (names : list string) :
  list_index s names = None <-> ~ In s names.
Proof.
  induction names as [| n ns IH]; simpl.
  - split; [intros _ [] | reflexivity].
  - destruct (String.eqb_spec n s) as [E | E].
    + split; [discriminate | intros H; exfalso; apply H; now left].
    + destruct (list_index s ns) as [k |].
      * split; [discriminate |]. intros H. exfalso.
        assert (Hk : Some k = None)
          by (apply IH; intros Hin; apply H; now right).
        discriminate.
      * split; [| reflexivity]. intros _ [Hn | Hin]; [contradiction |].
        exact (proj1 IH eq_refl Hin).
Qed.

Lemma restriction_columns_ok (names : list string) (ncols : nat)
  (features : list string) (js : list nat) :
  restriction_columns names ncols features = Ok js ->
  List.length js = List.length features /\
  forall i, (i < List.length features)%nat ->
    list_index (nth i features ""%string) names = Some (nth i js 0%nat) /\
    (nth i js 0%nat < ncols)%nat.
Proof.
  revert js. induction features as [| ft rest IH]; intros js H; simpl in H.
  - injection H as <-. split; [reflexivity | simpl; intros; lia].
  - destruct (list_index ft names) as [j |] eqn:Ej; [| discriminate].
    destruct (Nat.ltb_spec j ncols) as [Hj | Hj]; [| discriminate].
    destruct (restriction_columns names ncols rest) as [js' |];
      simpl in H; [| discriminate].
    injection H as <-. destruct (IH js' eq_refl) as [Hl Hk]. split.
    + simpl. now rewrite Hl.
    + intros [| i] Hi; simpl; [auto | apply Hk; simpl in Hi; lia].
Qed.

Lemma restriction_columns_missing (names : list string) (ncols : nat)
  (features : list string) (ft : string) :
  (List.length names <= ncols)%nat ->
  In ft features -> ~ In ft names ->
  restriction_columns names ncols features = Raise ValueError.
Proof.
  intros Hn Hin Hmiss. induction features as [| a rest IH]; [destruct Hin |].
  simpl. destruct (list_index a names) as [j |] eqn:Ej.
  - destruct (list_index_some _ _ Ej) as [Hj _].
    destruct (Nat.ltb_spec j ncols) as [_ | Hc]; [| lia].
    destruct Hin as [-> | Hin].
    + apply list_index_none in Hmiss. congruence.
    + now rewrite (IH Hin).
  - reflexivity.
Qed.

Lemma indicator_pick (f : nat -> Q) (c s len : nat) :
  Qsum (map (fun j => (if Nat.eqb j c then 1 else 0) * f j) (seq s len))
  == if Nat.leb s c && Nat.ltb c (s + len) then f c else 0.
Proof.
  revert s. induction len as [| len IH]; intros s; simpl.
  - destruct (Nat.leb_spec s c), (Nat.ltb_spec c (s + 0)); simpl;
      try reflexivity. lia.
  - rewrite IH.
    destruct (Nat.eqb_spec s c) as [-> | E].
    + destruct (Nat.leb_spec (S c) c); [lia |]. simpl.
      destruct (Nat.leb_spec c c); [| lia].
      destruct (Nat.ltb_spec c (c + S len)); [| lia]. simpl. ring.
    + destruct (Nat.leb_spec (S s) c), (Nat.leb_spec s c),
        (Nat.ltb_spec c (S s + len)), (Nat.ltb_spec c (s + S len));
        simpl; try lia; ring.
Qed.

End WaldFeatures.

(** X23: the restrictions built from feature names test the named
    coefficients: row [i] of the restriction matrix has a single one, in
    the column of the first name equal to feature [i], and entry [i] of
    [R beta - r] is that coefficient minus the given value (zero when no
    values are given).  A feature that is not among the names is a
    validation error. *)
Theorem wald_feature_names_select (fit_icpt : bool)
  (feature_names_ : list string) (icpt : Q) (coef : list Q)
  (features : list string) (values : option (list Q)) :
  let names := coef_names fit_icpt feature_names_ in
  let beta := coef_beta fit_icpt icpt coef in
  (forall R res,
     _wald_test_feature_names fit_icpt feature_names_ icpt coef
                              features values = Ok (R, res) ->
     dim0 R = List.length features /\ dim1 R = List.length beta /\
     List.length res = List.length features /\
     forall i, (i < List.length features)%nat ->
       exists j,
         list_index (nth i features ""%string) names = Some j /\
         (j < List.length beta)%nat /\
         (forall k, at_ R i k = if Nat.eqb k j then 1%Q else 0%Q) /\
         (nth i res 0
          == nth j beta 0
             - nth i (default_to values (repeat 0%Q (List.length features)))
                   0)%Q) /\
  (forall ft,
     List.length feature_names_ = List.length coef ->
     match values with
     | Some v => List.length v = List.length features
     | None => True
     end ->
     In ft features -> ~ In ft names ->
     _wald_test_feature_names fit_icpt feature_names_ icpt coef
                              features values = Raise ValueError).
Proof.
  intros names beta. split.
  - intros R res H. unfold _wald_test_feature_names in H.
    fold names beta in H.
    destruct (match values with
              | Some v => negb (Nat.eqb (List.length features) (List.length v))
              | None => false
              end) eqn:Ev; [discriminate |].
    destruct (restriction_columns names (List.length beta) features)
      as [js |] eqn:Ej; simpl in H; [| discriminate].
    destruct (restriction_columns_ok _ _ _ Ej) as [Hl Hjs].
    unfold restriction_residual in H. cbn [dim0 dim1 restriction_matrix] in H.
    assert (Hr : List.length
                   (default_to values (repeat 0%Q (List.length js)))
                 = List.length js).
    { destruct values as [v |]; simpl.
      - apply negb_false_iff, Nat.eqb_eq in Ev. congruence.
      - apply repeat_length. }
    rewrite Hr, !Nat.eqb_refl in H. simpl in H. injection H as <- <-.
    cbn [dim0 dim1 restriction_matrix].
    split; [exact Hl |]. split; [reflexivity |].
    split; [now rewrite length_map, length_seq |].
    intros i Hi. destruct (Hjs i Hi) as [Hidx Hlt].
    exists (nth i js 0%nat). split; [exact Hidx |]. split; [exact Hlt |].
    assert (Hi' : (i < List.length js)%nat) by lia.
    split.
    + intros k. cbn [at_ restriction_matrix].
      apply Nat.ltb_lt in Hi'. now rewrite Hi'.
    + rewrite (nth_indep _ 0%Q
                 ((fun i0 => sum_range (List.length beta)
                     (fun j => at_ (restriction_matrix (List.length beta) js)
                                   i0 j * nth j beta 0)
                   - nth i0 (default_to values
                               (repeat 0 (List.length js))) 0) 0%nat)%Q)
        by (rewrite length_map, length_seq; exact Hi').
      rewrite (map_nth (fun i0 => sum_range (List.length beta)
                     (fun j => at_ (restriction_matrix (List.length beta) js)
                                   i0 j * nth j beta 0)
                   - nth i0 (default_to values
                               (repeat 0 (List.length js))) 0)%Q).
      rewrite seq_nth by exact Hi'. simpl Nat.add.
      rewrite Hl. unfold sum_range. cbn [at_ restriction_matrix].
      assert (Hi'' := proj2 (Nat.ltb_lt _ _) Hi'). rewrite Hi''. simpl andb.
      rewrite (indicator_pick (fun j => nth j beta 0)).
      destruct (Nat.ltb_spec (nth i js 0%nat) (0 + List.length beta));
        [| simpl in *; lia].
      simpl. reflexivity.
  - intros ft Hlen Hv Hin Hmiss. unfold _wald_test_feature_names.
    fold names beta.
    assert (Ev : match values with
                 | Some v => negb (Nat.eqb (List.length features)
                                           (List.length v))
                 | None => false
                 end = false).
    { destruct values as [v |]; [| reflexivity].
      rewrite Hv, Nat.eqb_refl. reflexivity. }
    rewrite Ev.
    rewrite (@restriction_columns_missing names (List.length beta)
               features ft); [reflexivity | | exact Hin | exact Hmiss].
    subst names beta. unfold coef_names, coef_beta.
    destruct fit_icpt; simpl; lia.
Qed.

Lemma wald_feature_names_select_witness :
  exists R res,
    _wald_test_feature_names true ["age"; "income"]%string 5%Q [2%Q; 3%Q]
      ["income"]%string (Some [1%Q]) = Ok (R, res) /\
    (nth 0 res 0 == 3 - 1)%Q /\
    _wald_test_feature_names true ["age"; "income"]%string 5%Q [2%Q; 3%Q]
      ["height"]%string None = Raise ValueError.
Proof.
  pose proof (@wald_feature_names_select true ["age"; "income"]%string 5%Q
                [2%Q; 3%Q] ["income"]%string (Some [1%Q])) as [Hsel _].
  pose proof (@wald_feature_names_select true ["age"; "income"]%string 5%Q
                [2%Q; 3%Q] ["height"]%string None) as [_ Hmiss].
  do 2 eexists. split; [reflexivity |]. split.
  - reflexivity.
  - apply (Hmiss "height"%string); [reflexivity | exact I | now left |].
    intros [H | [H | [H | []]]]; discriminate.
Defined.
